(** * Tone.js: Convolver, CrossFade and AmplitudeEnvelope

    A shallow embedding of three components of Tone.js
    (src/Tone/effect/Convolver.ts, src/Tone/component/channel/CrossFade.ts,
    src/Tone/component/envelope/AmplitudeEnvelope.ts) over an explicit model
    of the audio graph they drive.

    The components are orchestration code: they create native nodes, connect
    and disconnect them, and forward properties to them.  The state they act
    on is therefore the audio graph itself.  It is modelled as a [World]: an
    allocation counter for node identities, the list of connections in force,
    the heap of native convolver units, the set of disposed wrappers and a log
    of user callbacks invoked.  Every method of a component is a function from
    the component record and the world to the new record and world. *)

From Stdlib Require Import ZArith QArith String.
From stdpp Require Import base gmap list.

Local Open Scope nat_scope.

(** ** The audio engine (external: Web Audio) *)

Definition NodeId := nat.

(** The destination of a connection: input [inputIndex] of a node, or one of
    the two audio-rate parameters the sources connect to ([gain.gain] of a
    gain node, [panner.pan] of a stereo panner). *)
Inductive Port :=
| NodeInput (n : NodeId) (inputIndex : nat)
| GainParam (n : NodeId)
| PanParam (n : NodeId).

(** [connect(src, dst, outputIndex, inputIndex)] adds one edge. *)
Record Edge := mkEdge { e_src : NodeId; e_out : nat; e_dst : Port }.

#[global] Instance Port_eq_dec : EqDecision Port.
Proof. solve_decision. Defined.

#[global] Instance Edge_eq_dec : EqDecision Edge.
Proof. solve_decision. Defined.

(** The node a port belongs to. *)
Definition port_node (p : Port) : NodeId :=
  match p with
  | NodeInput n _ => n
  | GainParam n => n
  | PanParam n => n
  end.

(** A decoded block of samples.  An [AudioBuffer] of the engine has at least
    one frame, hence the first frame apart. *)
Record AudioBuffer := mkAudioBuffer { ab_first : Z; ab_rest : list Z }.

Definition AudioBuffer_length (a : AudioBuffer) : nat := S (length (ab_rest a)).

(** The native ConvolverNode: its two attributes. *)
Record ConvolverNode := mkConvolverNode {
  cn_buffer : option AudioBuffer;
  cn_normalize : bool
}.

(** A ConvolverNode as the engine's factory hands it out: no buffer, and
    [normalize] at its Web Audio default, true. *)
Definition fresh_ConvolverNode : ConvolverNode :=
  {| cn_buffer := None; cn_normalize := true |}.

Record World := mkWorld {
  next_id : NodeId;
  edges : list Edge;
  convolvers : gmap NodeId ConvolverNode;
  disposed : gset NodeId;
  invoked : list nat
}.

Definition empty_World : World :=
  {| next_id := 0; edges := []; convolvers := ∅; disposed := ∅; invoked := [] |}.

(** [context.createGain()], [createStereoPanner()], [createChannelSplitter()],
    [getConstant()]: a node with no state of its own in this model. *)
Definition createNode (w : World) : NodeId * World :=
  (next_id w,
   {| next_id := S (next_id w); edges := edges w; convolvers := convolvers w;
      disposed := disposed w; invoked := invoked w |}).

(** [context.createConvolver()] *)
Definition createConvolver (w : World) : NodeId * World :=
  (next_id w,
   {| next_id := S (next_id w); edges := edges w;
      convolvers := <[next_id w := fresh_ConvolverNode]> (convolvers w);
      disposed := disposed w; invoked := invoked w |}).

(** [connect(src, dst, outputIndex)] *)
Definition connect (src : NodeId) (out : nat) (dst : Port) (w : World) : World :=
  {| next_id := next_id w; edges := mkEdge src out dst :: edges w;
     convolvers := convolvers w; disposed := disposed w; invoked := invoked w |}.

(** [node.disconnect()] without argument: every outgoing edge of the node is
    removed; it is not an error when there is none. *)
Definition disconnect (src : NodeId) (w : World) : World :=
  {| next_id := next_id w; edges := filter (λ e, e_src e ≠ src) (edges w);
     convolvers := convolvers w; disposed := disposed w; invoked := invoked w |}.

(** Reading and writing the attributes of a convolver unit. *)
Definition unit_at (n : NodeId) (w : World) : ConvolverNode :=
  default fresh_ConvolverNode (convolvers w !! n).

Definition write_unit (n : NodeId) (u : ConvolverNode) (w : World) : World :=
  {| next_id := next_id w; edges := edges w;
     convolvers := <[n := u]> (convolvers w);
     disposed := disposed w; invoked := invoked w |}.

(** A world whose edges join allocated nodes. *)
Definition World_ok (w : World) : Prop :=
  Forall (λ e, e_src e < next_id w ∧ port_node (e_dst e) < next_id w) (edges w).

(** ** Callbacks *)

(** [noOp] of core/util/Interface, or a function of the user, known by a
    number. *)
Inductive Callback := noOp | UserFn (k : nat).

Definition invoke (f : Callback) (w : World) : World :=
  match f with
  | noOp => w
  | UserFn k =>
      {| next_id := next_id w; edges := edges w; convolvers := convolvers w;
         disposed := disposed w; invoked := k :: invoked w |}
  end.

(** ** Wrappers of the core (src/Tone/core is absent) *)

(** Modelled from the spec: the Gain wrapper (core/context/Gain.ts is absent):
    a Processing Node around one native gain node, with the initial value of
    its [gain] parameter. *)
Record Gain := mkGain { gain_node : NodeId; gain_value : Q }.

Definition new_Gain (gain : Q) (w : World) : Gain * World :=
  let '(n, w1) := createNode w in ({| gain_node := n; gain_value := gain |}, w1).

(** Modelled from the spec: [dispose()] of a wrapper around one native node
    (Gain, Signal, GainToAudio; their sources are absent).  Spec 4.1:
    disconnects its edges and marks the node disposed. *)
Definition dispose_node (n : NodeId) (w : World) : World :=
  let w1 := disconnect n w in
  {| next_id := next_id w1; edges := edges w1; convolvers := convolvers w1;
     disposed := {[n]} ∪ disposed w1; invoked := invoked w1 |}.

(** The world with every outgoing edge of the nodes [ns] removed and the
    wrappers [ds] marked disposed: what a sequence of disconnections and
    disposals amounts to. *)
Definition prune (ns ds : list NodeId) (w : World) : World :=
  {| next_id := next_id w;
     edges := filter (λ e, e_src e ∉ ns) (edges w);
     convolvers := convolvers w;
     disposed := list_to_set ds ∪ disposed w;
     invoked := invoked w |}.

(** A number in a condition of the source: true unless it is 0. *)
Definition truthy (n : nat) : bool := negb (Nat.eqb n 0).

(** ** The Resource Buffer *)

Inductive LoadError := DecodeError | FetchError.

(** What the external loader makes of a URL. *)
Inductive Fetched := Decoded (a : AudioBuffer) | Failed (e : LoadError).

Definition Loader := string → Fetched.

(** The two ways an asynchronous method ends, each with the state it leaves. *)
Inductive Outcome (S : Type) :=
| Resolved (s : S)
| Rejected (e : LoadError) (s : S).
Arguments Resolved {S} s.
Arguments Rejected {S} e s.

Module ToneAudioBuffer.

(** Modelled from the spec: the Resource Buffer (core/context/ToneAudioBuffer.ts
    is absent).  Spec 3: raw sample data owned once loaded, length 0 when
    empty, loaded iff length > 0; a load-completion callback given at
    construction. *)
Record t := mk { _buffer : option AudioBuffer; onload : Callback }.

Definition length (b : t) : nat :=
  match _buffer b with
  | Some a => AudioBuffer_length a
  | None => 0
  end.

Definition loaded (b : t) : bool := truthy (length b).

(** [get()]: the sample data, or nothing. *)
Definition get (b : t) : option AudioBuffer := _buffer b.

(** Modelled from the spec: [set(buffer)], spec 4.6 "assign data to the
    Resource Buffer".  The data of the argument replaces the data held. *)
Definition set (src : t) (b : t) : t :=
  {| _buffer := get src; onload := onload b |}.

(** Modelled from the spec: [load(url)], spec 3, 6 and 7.  The loader's data
    replaces the data held; a failure of the loader is surfaced unchanged
    and leaves the data held as it was. *)
Definition load (loader : Loader) (url : string) (b : t) : Outcome t :=
  match loader url with
  | Decoded a => Resolved {| _buffer := Some a; onload := onload b |}
  | Failed e => Rejected e b
  end.

(** Modelled from the spec: [dispose()] releases the sample data. *)
Definition dispose (b : t) : t := {| _buffer := None; onload := onload b |}.

End ToneAudioBuffer.

(** The [url] option of the Convolver: [string | AudioBuffer | ToneAudioBuffer]. *)
Inductive Source :=
| Url (s : string)
| Raw (a : AudioBuffer)
| Wrapped (b : ToneAudioBuffer.t).

(** Modelled from the spec: [new ToneAudioBuffer(url, onload)], spec 3 "created
    empty or with a source reference (inline data or a URL)".  Inline data is
    held at once; for a URL the buffer starts empty and the data arrive when
    the loader completes. *)
Definition new_ToneAudioBuffer (url : option Source) (onload : Callback)
  : ToneAudioBuffer.t :=
  match url with
  | Some (Raw a) => ToneAudioBuffer.mk (Some a) onload
  | Some (Wrapped b) => ToneAudioBuffer.mk (ToneAudioBuffer.get b) onload
  | Some (Url _) => ToneAudioBuffer.mk None onload
  | None => ToneAudioBuffer.mk None onload
  end.

(** ** Convolver (src/Tone/effect/Convolver.ts) *)

Module Convolver.

(** [ToneConvolverOptions] *)
Record Options := mkOptions {
  opt_onload : Callback;
  opt_normalize : bool;
  opt_url : option Source
}.

(** [Partial<ToneConvolverOptions>]: what the caller of the constructor
    gave. *)
Record Arguments_ := mkArguments {
  arg_onload : option Callback;
  arg_normalize : option bool;
  arg_url : option Source
}.

Definition no_arguments : Arguments_ :=
  {| arg_onload := None; arg_normalize := None; arg_url := None |}.

(** [Convolver.getDefaults()] *)
Definition getDefaults : Options :=
  {| opt_normalize := true; opt_onload := noOp; opt_url := None |}.

(** Modelled from the spec: [optionsFromArguments] (core/util/Defaults.ts is
    absent): spec 1 "default-merging"; a field the caller gave overrides the
    default. *)
Definition optionsFromArguments (defaults : Options) (args : Arguments_)
  : Options :=
  {| opt_onload := default (opt_onload defaults) (arg_onload args);
     opt_normalize := default (opt_normalize defaults) (arg_normalize args);
     opt_url := match arg_url args with
                | Some u => Some u
                | None => opt_url defaults
                end |}.

(** The fields of the object: those of the Effect base class that the source
    names ([input], [output], [effectSend], [effectReturn]) and the two of
    the Convolver. *)
Record t := mk {
  input : Gain;
  output : Gain;
  effectSend : Gain;
  effectReturn : Gain;
  _convolver : NodeId;
  _buffer : ToneAudioBuffer.t
}.

Definition with_convolver (n : NodeId) (c : t) : t :=
  {| input := input c; output := output c; effectSend := effectSend c;
     effectReturn := effectReturn c; _convolver := n; _buffer := _buffer c |}.

Definition with_buffer (b : ToneAudioBuffer.t) (c : t) : t :=
  {| input := input c; output := output c; effectSend := effectSend c;
     effectReturn := effectReturn c; _convolver := _convolver c;
     _buffer := b |}.

(** Modelled from the spec: [Effect.connectEffect(unit)] (effect/Effect.ts is
    absent): the unit is wired between the two internal gain stages,
    effectSend -> unit -> effectReturn. *)
Definition connectEffect (c : t) (effect : NodeId) (w : World) : World :=
  let w1 := connect (gain_node (effectSend c)) 0 (NodeInput effect 0) w in
  connect effect 0 (NodeInput (gain_node (effectReturn c)) 0) w1.

(** [get buffer()] *)
Definition get_buffer (c : t) : option ToneAudioBuffer.t :=
  if truthy (ToneAudioBuffer.length (_buffer c))
  then Some (_buffer c)
  else None.

(** Lines 96-103 of [set buffer]: the unit is replaced. *)
Definition swap_unit (c : t) (w : World) : t * World :=
  (* disconnect the old one *)
  let w1 := disconnect (gain_node (effectSend c)) w in
  let w2 := disconnect (_convolver c) w1 in
  (* create and connect a new one *)
  let '(n, w3) := createConvolver w2 in
  let c1 := with_convolver n c in
  (c1, connectEffect c1 n w3).

(** Lines 92-94 of [set buffer]: [if (buffer) { this._buffer.set(buffer); }] *)
Definition store (buffer : option ToneAudioBuffer.t) (c : t) : t :=
  match buffer with
  | Some b => with_buffer (ToneAudioBuffer.set b (_buffer c)) c
  | None => c
  end.

(** [set buffer(buffer)] *)
Definition set_buffer (buffer : option ToneAudioBuffer.t) (c : t) (w : World)
  : t * World :=
  let c1 := store buffer c in
  (* if it's already got a buffer, create a new one *)
  let '(c2, w2) := match cn_buffer (unit_at (_convolver c1) w) with
                   | Some _ => swap_unit c1 w
                   | None => (c1, w)
                   end in
  let buff := ToneAudioBuffer.get (_buffer c2) in
  let u := unit_at (_convolver c2) w2 in
  (c2, write_unit (_convolver c2)
         {| cn_buffer := buff; cn_normalize := cn_normalize u |} w2).

(** [get normalize()] *)
Definition get_normalize (c : t) (w : World) : bool :=
  cn_normalize (unit_at (_convolver c) w).

(** [set normalize(norm)] *)
Definition set_normalize (norm : bool) (c : t) (w : World) : World :=
  let u := unit_at (_convolver c) w in
  write_unit (_convolver c) {| cn_buffer := cn_buffer u; cn_normalize := norm |} w.

(** [async load(url)]: the assignment runs only once the awaited load has
    resolved; a rejection leaves through the caller. *)
Definition load (loader : Loader) (url : string) (c : t) (w : World)
  : Outcome (t * World) :=
  match ToneAudioBuffer.load loader url (_buffer c) with
  | Resolved b => Resolved (set_buffer (Some b) (with_buffer b c) w)
  | Rejected e b => Rejected e (with_buffer b c, w)
  end.

(** Modelled from the spec: the constructor of the Effect base class
    (effect/Effect.ts is absent): the node's input and output ports and the
    two internal gain stages; the input feeds the output directly (dry) and
    through effectSend ... effectReturn (wet). *)
Definition new_Effect (w : World) : t * World :=
  let '(i, w1) := new_Gain 1 w in
  let '(o, w2) := new_Gain 1 w1 in
  let '(s, w3) := new_Gain 1 w2 in
  let '(r, w4) := new_Gain 1 w3 in
  let w5 := connect (gain_node i) 0 (NodeInput (gain_node o) 0) w4 in
  let w6 := connect (gain_node i) 0 (NodeInput (gain_node s) 0) w5 in
  let w7 := connect (gain_node r) 0 (NodeInput (gain_node o) 0) w6 in
  ({| input := i; output := o; effectSend := s; effectReturn := r;
      _convolver := 0; _buffer := ToneAudioBuffer.mk None noOp |}, w7).

(** [constructor()] *)
Definition new (args : Arguments_) (w : World) : t * World :=
  let '(c0, w0) := new_Effect w in
  (* private _convolver = this.context.createConvolver() *)
  let '(n, w1) := createConvolver w0 in
  let c1 := with_convolver n c0 in
  let options := optionsFromArguments getDefaults args in
  let c2 := with_buffer (new_ToneAudioBuffer (opt_url options) (opt_onload options)) c1 in
  (* set if it's already loaded *)
  let '(c3, w3) := if ToneAudioBuffer.loaded (_buffer c2)
                   then set_buffer (Some (_buffer c2)) c2 w1
                   else (c2, w1) in
  (* initially set normalization *)
  let w4 := set_normalize (opt_normalize options) c3 w3 in
  (* connect it up *)
  (c3, connectEffect c3 (_convolver c3) w4).

(** The callback the constructor hands to its ToneAudioBuffer,
    [buffer => { this.buffer = buffer; options.onload(); }], run when the
    load started by the constructor completes with data [a]. *)
Definition constructor_onload (a : AudioBuffer) (c : t) (w : World) : t * World :=
  let b := ToneAudioBuffer.mk (Some a) (ToneAudioBuffer.onload (_buffer c)) in
  let '(c1, w1) := set_buffer (Some b) (with_buffer b c) w in
  (c1, invoke (ToneAudioBuffer.onload (_buffer c1)) w1).

(** Modelled from the spec: [Effect.dispose()] (absent): the base disposes
    the node's ports and the two internal gain stages. *)
Definition Effect_dispose (c : t) (w : World) : World :=
  let w1 := dispose_node (gain_node (input c)) w in
  let w2 := dispose_node (gain_node (output c)) w1 in
  let w3 := dispose_node (gain_node (effectSend c)) w2 in
  dispose_node (gain_node (effectReturn c)) w3.

(** [dispose()] *)
Definition dispose (c : t) (w : World) : t * World :=
  let w1 := Effect_dispose c w in
  let c1 := with_buffer (ToneAudioBuffer.dispose (_buffer c)) c in
  let w2 := disconnect (_convolver c1) w1 in
  (c1, w2).

(** *** Well-formed effects *)

(** The five nodes of the effect. *)
Definition nodes (c : t) : list NodeId :=
  [gain_node (input c); gain_node (output c); gain_node (effectSend c);
   gain_node (effectReturn c); _convolver c].

(** The two edges that route the unit [n] inside the effect. *)
Definition send_edge (c : t) (n : NodeId) : Edge :=
  mkEdge (gain_node (effectSend c)) 0 (NodeInput n 0).

Definition return_edge (c : t) (n : NodeId) : Edge :=
  mkEdge n 0 (NodeInput (gain_node (effectReturn c)) 0).

(** What an edge of the world must satisfy around the effect [c]: its ends
    are allocated nodes; effectSend feeds the unit only; the unit feeds
    effectReturn only and is fed by effectSend only (the unit is private). *)
Definition edge_ok (c : t) (w : World) (e : Edge) : Prop :=
  e_src e < next_id w ∧ port_node (e_dst e) < next_id w ∧
  (e_src e = gain_node (effectSend c) → e = send_edge c (_convolver c)) ∧
  (e_src e = _convolver c → e = return_edge c (_convolver c)) ∧
  (port_node (e_dst e) = _convolver c → e_src e = gain_node (effectSend c)).

(** A well-formed effect in its world: five distinct allocated nodes, and
    every edge as above. *)
Definition wf (c : t) (w : World) : Prop :=
  NoDup (nodes c) ∧
  Forall (λ n, n < next_id w) (nodes c) ∧
  Forall (edge_ok c w) (edges w).

#[global] Instance edge_ok_dec c w e : Decision (edge_ok c w e).
Proof. unfold edge_ok. apply _. Defined.

#[global] Instance wf_dec c w : Decision (wf c w).
Proof. unfold wf. apply _. Defined.

(** The unit in place holds the data of the Resource Buffer. *)
Definition synced (c : t) (w : World) : Prop :=
  cn_buffer (unit_at (_convolver c) w) = ToneAudioBuffer.get (_buffer c).

(** *** The states of a live Convolver *)

(** The states a Convolver goes through between its construction and its
    disposal: the constructor, then any sequence of assignments to [buffer]
    and [normalize], of loads (resolved or rejected), of the completion of
    the load started by the constructor, and of nodes created and connections
    made in the graph around it (the unit and effectSend are internal: no
    connection from outside starts at them or ends at the unit). *)
Inductive reachable : t → World → Prop :=
| reach_new args w :
    World_ok w →
    reachable (new args w).1 (new args w).2
| reach_set_buffer buffer c w :
    reachable c w →
    reachable (set_buffer buffer c w).1 (set_buffer buffer c w).2
| reach_set_normalize norm c w :
    reachable c w → reachable c (set_normalize norm c w)
| reach_load_resolved loader url c w c' w' :
    reachable c w → load loader url c w = Resolved (c', w') → reachable c' w'
| reach_load_rejected loader url e c w c' w' :
    reachable c w → load loader url c w = Rejected e (c', w') → reachable c' w'
| reach_constructor_onload a c w :
    reachable c w →
    reachable (constructor_onload a c w).1 (constructor_onload a c w).2
| reach_connect src out dst c w :
    reachable c w →
    src < next_id w → port_node dst < next_id w →
    src ≠ gain_node (effectSend c) → src ≠ _convolver c →
    port_node dst ≠ _convolver c →
    reachable c (connect src out dst w)
| reach_createNode c w :
    reachable c w → reachable c (createNode w).2.

End Convolver.

(** ** The Scheduled Parameter *)

Inductive Units := normalRange | number.

Inductive Curve := linear | exponential.

Record AutomationEvent := mkEvent {
  ev_time : Q;
  ev_target : Q;
  ev_curve : Curve
}.

(** Modelled from the spec: the Signal (signal/Signal.ts is absent), spec 3
    "Scheduled Parameter": a current value, a unit kind and the scheduled
    automation events, around one native source node. *)
Record Signal := mkSignal {
  sig_node : NodeId;
  sig_units : Units;
  sig_value : Q;
  sig_events : list AutomationEvent
}.

(** Modelled from the spec: spec 3, "value is always within the declared
    unit's legal range": a value given for a normal-range parameter is brought
    into [0,1]. *)
Definition in_range (units : Units) (value : Q) : Q :=
  match units with
  | normalRange =>
      if Qle_bool value 0 then 0
      else if Qle_bool 1 value then 1
      else value
  | number => value
  end.

Definition new_Signal (units : Units) (value : Q) (w : World) : Signal * World :=
  let '(n, w1) := createNode w in
  ({| sig_node := n; sig_units := units; sig_value := in_range units value;
      sig_events := [] |}, w1).

(** Modelled from the spec: [ToneAudioNode.dispose()] (core/context/ToneAudioNode.ts
    is absent), spec 4.1: the base class disposes the ports of the node, where
    it has them. *)
Definition ToneAudioNode_dispose (input output : option NodeId) (w : World) : World :=
  let w1 := match input with Some n => dispose_node n w | None => w end in
  match output with Some n => dispose_node n w1 | None => w1 end.

(** ** CrossFade (src/Tone/component/channel/CrossFade.ts) *)

Module CrossFade.

(** [CrossFadeOptions] *)
Record Options := mkOptions { opt_fade : Q }.

(** [CrossFade.getDefaults()] *)
Definition getDefaults : Options := {| opt_fade := 1 # 2 |}.

(** Modelled from the spec: [optionsFromArguments] for the one positional
    argument [fade]: the default stands when the caller gave none. *)
Definition optionsFromArguments (defaults : Options) (fade : option Q) : Options :=
  {| opt_fade := default (opt_fade defaults) fade |}.

Record t := mk {
  _panner : NodeId;
  _split : NodeId;
  _g2a : NodeId;
  a : Gain;
  b : Gain;
  output : Gain;
  fade : Signal;
  _internalChannels : list Gain;
  readOnly : list string
}.

(** [constructor()], after the field initialisers in their order. *)
Definition new (arg : option Q) (w : World) : t * World :=
  let '(panner, w1) := createNode w in
  let '(split, w2) := createNode w1 in
  let '(g2a, w3) := createNode w2 in
  let '(ga, w4) := new_Gain 0 w3 in
  let '(gb, w5) := new_Gain 0 w4 in
  let '(out, w6) := new_Gain 1 w5 in
  let options := optionsFromArguments getDefaults arg in
  let '(fd, w7) := new_Signal normalRange (opt_fade options) w6 in
  (* this.context.getConstant(1).connect(this._panner) *)
  let '(one, w8) := createNode w7 in
  let w9 := connect one 0 (NodeInput panner 0) w8 in
  let w10 := connect panner 0 (NodeInput split 0) w9 in
  let w11 := connect split 0 (GainParam (gain_node ga)) w10 in
  let w12 := connect split 1 (GainParam (gain_node gb)) w11 in
  (* this.fade.chain(this._g2a, this._panner.pan) *)
  let w13 := connect (sig_node fd) 0 (NodeInput g2a 0) w12 in
  let w14 := connect g2a 0 (PanParam panner) w13 in
  let w15 := connect (gain_node ga) 0 (NodeInput (gain_node out) 0) w14 in
  let w16 := connect (gain_node gb) 0 (NodeInput (gain_node out) 0) w15 in
  ({| _panner := panner; _split := split; _g2a := g2a; a := ga; b := gb;
      output := out; fade := fd; _internalChannels := [ga; gb];
      readOnly := ["fade"%string] |}, w16).

(** [dispose()]; the object itself is returned as it is. *)
Definition dispose (c : t) (w : World) : World :=
  let w1 := ToneAudioNode_dispose None (Some (gain_node (output c))) w in
  let w2 := dispose_node (gain_node (a c)) w1 in
  let w3 := dispose_node (gain_node (b c)) w2 in
  let w4 := dispose_node (gain_node (output c)) w3 in
  let w5 := dispose_node (sig_node (fade c)) w4 in
  let w6 := dispose_node (_g2a c) w5 in
  let w7 := disconnect (_panner c) w6 in
  disconnect (_split c) w7.

End CrossFade.

(** ** AmplitudeEnvelope (src/Tone/component/envelope/AmplitudeEnvelope.ts) *)

Module AmplitudeEnvelope.

(** [EnvelopeOptions] *)
Record Options := mkOptions {
  opt_attack : Q;
  opt_decay : Q;
  opt_sustain : Q;
  opt_release : Q
}.

(** The fields of the Envelope base class (component/envelope/Envelope.ts is
    absent) that the spec names, and the three of the AmplitudeEnvelope. *)
Record t := mk {
  attack : Q;
  decay : Q;
  sustain : Q;
  release : Q;
  _sig : Signal;
  _gainNode : Gain;
  output : Gain;
  input : Gain
}.

(** [constructor()]: the base constructor makes the envelope's signal; then
    the field initialisers and the body.  The defaults of the base class are
    not in the sources: the merged options are the argument. *)
Definition new (options : Options) (w : World) : t * World :=
  (* super(...) *)
  let '(sg, w1) := new_Signal normalRange 0 w in
  (* private _gainNode = new Gain({ gain: 0 }) *)
  let '(g, w2) := new_Gain 0 w1 in
  (* this._sig.connect(this._gainNode.gain) *)
  let w3 := connect (sig_node sg) 0 (GainParam (gain_node g)) w2 in
  ({| attack := opt_attack options; decay := opt_decay options;
      sustain := opt_sustain options; release := opt_release options;
      _sig := sg; _gainNode := g; output := g; input := g |}, w3).

(** Modelled from the spec: [Envelope.dispose()] (absent): the base disposes
    the ports, and the envelope its signal. *)
Definition Envelope_dispose (c : t) (w : World) : World :=
  let w1 := ToneAudioNode_dispose (Some (gain_node (input c)))
              (Some (gain_node (output c))) w in
  dispose_node (sig_node (_sig c)) w1.

(** [dispose()] *)
Definition dispose (c : t) (w : World) : World :=
  let w1 := Envelope_dispose c w in
  dispose_node (gain_node (_gainNode c)) w1.


End AmplitudeEnvelope.

(** ** A scenario *)

Module Scenario.

(** Two impulse responses, of lengths 2 and 3. *)
Definition impulse1 : AudioBuffer := mkAudioBuffer 1 [2%Z].
Definition impulse2 : AudioBuffer := mkAudioBuffer 3 [4%Z; 5%Z].

(** [new Convolver(impulse1)] in an empty graph. *)
Definition built : Convolver.t * World :=
  Convolver.new
    {| Convolver.arg_onload := None; Convolver.arg_normalize := None;
       Convolver.arg_url := Some (Raw impulse1) |}
    empty_World.

(** [new Convolver()] in an empty graph. *)
Definition bare : Convolver.t * World :=
  Convolver.new Convolver.no_arguments empty_World.

(** A loader that knows two files and fails on every other URL. *)
Definition loader : Loader :=
  λ url, if String.eqb url "ir1.wav" then Decoded impulse1
         else if String.eqb url "ir2.wav" then Decoded impulse2
         else Failed FetchError.

End Scenario.

(** [new AmplitudeEnvelope(0.1, 0.2, 1, 0.8)] in an empty graph. *)
Module EnvelopeScenario.

Definition options : AmplitudeEnvelope.Options :=
  {| AmplitudeEnvelope.opt_attack := 1 # 10;
     AmplitudeEnvelope.opt_decay := 2 # 10;
     AmplitudeEnvelope.opt_sustain := 1;
     AmplitudeEnvelope.opt_release := 8 # 10 |}.

Definition built : AmplitudeEnvelope.t * World :=
  AmplitudeEnvelope.new options empty_World.

End EnvelopeScenario.

(** ** Further notions *)

Module Routing.
Import Convolver.

(** The unit in place is wired once and only between the two gain stages:
    one edge leaves effectSend, one leaves the unit, one enters the unit. *)
Definition routed (c : t) (w : World) : Prop :=
  filter (λ e, e_src e = gain_node (effectSend c)) (edges w)
    = [send_edge c (_convolver c)] ∧
  filter (λ e, e_src e = _convolver c) (edges w)
    = [return_edge c (_convolver c)] ∧
  filter (λ e, port_node (e_dst e) = _convolver c) (edges w)
    = [send_edge c (_convolver c)].

End Routing.

(** A Convolver written out by hand, with its world: the unit in place, node
    4, holds the impulse of length 2 that the Resource Buffer holds, with
    [normalize] set to false. *)
Module LoadedScenario.

Definition c : Convolver.t :=
  {| Convolver.input := mkGain 0 1; Convolver.output := mkGain 1 1;
     Convolver.effectSend := mkGain 2 1; Convolver.effectReturn := mkGain 3 1;
     Convolver._convolver := 4;
     Convolver._buffer := ToneAudioBuffer.mk (Some Scenario.impulse1) noOp |}.

Definition w : World :=
  {| next_id := 5;
     edges := [mkEdge 4 0 (NodeInput 3 0); mkEdge 2 0 (NodeInput 4 0);
               mkEdge 3 0 (NodeInput 1 0); mkEdge 0 0 (NodeInput 2 0);
               mkEdge 0 0 (NodeInput 1 0)];
     convolvers := {[ 4 := {| cn_buffer := Some Scenario.impulse1;
                              cn_normalize := false |} ]};
     disposed := ∅; invoked := [] |}.

End LoadedScenario.

(** * Properties *)

(** ** The engine *)

Section Engine.

Implicit Types (w : World) (n m : NodeId) (e : Edge).

Lemma unit_at_write_unit n u w : unit_at n (write_unit n u w) = u.
Proof. unfold unit_at, write_unit; simpl. by rewrite lookup_insert_eq. Qed.

Lemma lookup_write_unit_ne n m u w :
  n ≠ m → convolvers (write_unit n u w) !! m = convolvers w !! m.
Proof. intros Hne. unfold write_unit; simpl. by rewrite lookup_insert_ne. Qed.

Lemma unit_at_createConvolver w :
  unit_at (createConvolver w).1 (createConvolver w).2 = fresh_ConvolverNode.
Proof. unfold unit_at, createConvolver; simpl. by rewrite lookup_insert_eq. Qed.

Lemma elem_of_disconnect e n w :
  e ∈ edges (disconnect n w) ↔ e ∈ edges w ∧ e_src e ≠ n.
Proof. unfold disconnect; simpl. rewrite list_elem_of_filter. tauto. Qed.

Lemma elem_of_connect e src out dst w :
  e ∈ edges (connect src out dst w) ↔ e = mkEdge src out dst ∨ e ∈ edges w.
Proof. unfold connect; simpl. apply elem_of_cons. Qed.

(** Disconnecting twice is disconnecting once. *)
Lemma disconnect_idemp n w : disconnect n (disconnect n w) = disconnect n w.
Proof.
  unfold disconnect; simpl. f_equal.
  induction (edges w) as [|e l IH]; [done|].
  rewrite !filter_cons. destruct (decide (e_src e ≠ n)) as [H|H].
  - rewrite filter_cons. rewrite decide_True by done. by f_equal.
  - done.
Qed.

(** *** Disconnections and disposals in closed form *)

Lemma prune_nil w : prune [] [] w = w.
Proof.
  destruct w as [nx ed cv dp iv]. unfold prune; simpl. f_equal.
  - induction ed as [|e l IH]; [done|].
    rewrite filter_cons. rewrite decide_True by apply not_elem_of_nil.
    by f_equal.
  - apply (left_id_L ∅ (∪)).
Qed.

Lemma filter_src_cons n (ns : list NodeId) (l : list Edge) :
  filter (λ e, e_src e ≠ n) (filter (λ e, e_src e ∉ ns) l)
  = filter (λ e, e_src e ∉ n :: ns) l.
Proof.
  rewrite list_filter_filter. apply list_filter_iff. intros e.
  rewrite not_elem_of_cons. tauto.
Qed.

Lemma disconnect_prune n ns ds w :
  disconnect n (prune ns ds w) = prune (n :: ns) ds w.
Proof. unfold disconnect, prune; simpl. by rewrite filter_src_cons. Qed.

Lemma dispose_node_prune n ns ds w :
  dispose_node n (prune ns ds w) = prune (n :: ns) (n :: ds) w.
Proof.
  unfold dispose_node, disconnect, prune; simpl. rewrite filter_src_cons.
  f_equal. apply (assoc_L (∪)).
Qed.

(** Pruning twice is pruning once. *)
Lemma prune_idemp ns ds w : prune ns ds (prune ns ds w) = prune ns ds w.
Proof.
  unfold prune; simpl. f_equal.
  - rewrite list_filter_filter. apply list_filter_iff. intros e. tauto.
  - rewrite (assoc_L (∪)). f_equal. apply (idemp_L (∪)).
Qed.

End Engine.

(** ** Convolver *)

Module ConvolverProps.
Import Convolver.

Implicit Types (c : t) (w : World) (e : Edge) (n : NodeId).

Lemma with_buffer_same c : with_buffer (_buffer c) c = c.
Proof. by destruct c. Qed.

Lemma store_convolver buffer c : _convolver (store buffer c) = _convolver c.
Proof. by destruct buffer. Qed.

Lemma store_ports buffer c :
  input (store buffer c) = input c ∧ output (store buffer c) = output c ∧
  effectSend (store buffer c) = effectSend c ∧
  effectReturn (store buffer c) = effectReturn c.
Proof. by destruct buffer. Qed.

(** The world after the swap, in closed form. *)
Lemma swap_unit_eq c w :
  swap_unit c w =
  (with_convolver (next_id w) c,
   {| next_id := S (next_id w);
      edges := return_edge c (next_id w) :: send_edge c (next_id w) ::
               filter (λ e, e_src e ≠ _convolver c)
                 (filter (λ e, e_src e ≠ gain_node (effectSend c)) (edges w));
      convolvers := <[next_id w := fresh_ConvolverNode]> (convolvers w);
      disposed := disposed w; invoked := invoked w |}).
Proof. reflexivity. Qed.

(** The two branches of the setter. *)
Lemma set_buffer_direct buffer c w :
  cn_buffer (unit_at (_convolver c) w) = None →
  set_buffer buffer c w =
  (store buffer c,
   write_unit (_convolver c)
     {| cn_buffer := ToneAudioBuffer.get (_buffer (store buffer c));
        cn_normalize := cn_normalize (unit_at (_convolver c) w) |} w).
Proof.
  intros H. unfold set_buffer. rewrite store_convolver, H. simpl.
  by rewrite store_convolver.
Qed.

Lemma set_buffer_swap buffer c w a :
  cn_buffer (unit_at (_convolver c) w) = Some a →
  set_buffer buffer c w =
  ((swap_unit (store buffer c) w).1,
   write_unit (next_id w)
     {| cn_buffer := ToneAudioBuffer.get (_buffer (store buffer c));
        cn_normalize := true |}
     (swap_unit (store buffer c) w).2).
Proof.
  intros H. unfold set_buffer. rewrite store_convolver, H.
  rewrite swap_unit_eq. simpl. f_equal. f_equal. f_equal.
  unfold unit_at; simpl. by rewrite lookup_insert_eq.
Qed.

(** *** What the setter does to the Resource Buffer and to the unit *)

Lemma set_buffer_buffer buffer c w :
  _buffer (set_buffer buffer c w).1 = _buffer (store buffer c).
Proof.
  destruct (cn_buffer (unit_at (_convolver c) w)) as [a|] eqn:H.
  - rewrite (set_buffer_swap _ _ _ a H). reflexivity.
  - rewrite (set_buffer_direct _ _ _ H). reflexivity.
Qed.

Lemma set_buffer_ports buffer c w :
  input (set_buffer buffer c w).1 = input c ∧
  output (set_buffer buffer c w).1 = output c ∧
  effectSend (set_buffer buffer c w).1 = effectSend c ∧
  effectReturn (set_buffer buffer c w).1 = effectReturn c.
Proof.
  destruct (cn_buffer (unit_at (_convolver c) w)) as [a|] eqn:H.
  - rewrite (set_buffer_swap _ _ _ a H). simpl. apply store_ports.
  - rewrite (set_buffer_direct _ _ _ H). simpl. apply store_ports.
Qed.

(** After the setter the unit in place holds what the Resource Buffer holds. *)
Lemma set_buffer_unit buffer c w :
  cn_buffer (unit_at (_convolver (set_buffer buffer c w).1) (set_buffer buffer c w).2)
  = ToneAudioBuffer.get (_buffer (set_buffer buffer c w).1).
Proof.
  destruct (cn_buffer (unit_at (_convolver c) w)) as [a|] eqn:H.
  - rewrite (set_buffer_swap _ _ _ a H). simpl. by rewrite unit_at_write_unit.
  - rewrite (set_buffer_direct _ _ _ H). simpl.
    by rewrite store_convolver, unit_at_write_unit.
Qed.

(** Round trip of the buffer: a buffer of length L > 0 is read back with
    length L. *)
Lemma get_buffer_set_buffer b c w :
  ToneAudioBuffer.length b ≠ 0 →
  ∃ b', get_buffer (set_buffer (Some b) c w).1 = Some b' ∧
        ToneAudioBuffer.length b' = ToneAudioBuffer.length b.
Proof.
  intros Hlen. unfold get_buffer. rewrite set_buffer_buffer. simpl.
  assert (Heq : ToneAudioBuffer.length (ToneAudioBuffer.set b (_buffer c))
                = ToneAudioBuffer.length b) by reflexivity.
  rewrite Heq. unfold truthy.
  destruct (Nat.eqb_spec (ToneAudioBuffer.length b) 0); [done|].
  eexists; split; [reflexivity | exact Heq].
Qed.

(** An empty buffer assigned: the getter answers that there is none. *)
Lemma get_buffer_set_empty b c w :
  ToneAudioBuffer.length b = 0 →
  get_buffer (set_buffer (Some b) c w).1 = None.
Proof.
  intros Hlen. unfold get_buffer. rewrite set_buffer_buffer. simpl.
  assert (Heq : ToneAudioBuffer.length (ToneAudioBuffer.set b (_buffer c))
                = ToneAudioBuffer.length b) by reflexivity.
  by rewrite Heq, Hlen.
Qed.

(** *** normalize *)

Lemma get_normalize_set_normalize norm c w :
  get_normalize c (set_normalize norm c w) = norm.
Proof. unfold get_normalize, set_normalize. by rewrite unit_at_write_unit. Qed.

(** Without a swap the flag stays as it was set. *)
Lemma get_normalize_set_buffer_direct buffer c w :
  cn_buffer (unit_at (_convolver c) w) = None →
  get_normalize (set_buffer buffer c w).1 (set_buffer buffer c w).2
  = get_normalize c w.
Proof.
  intros H. rewrite (set_buffer_direct _ _ _ H). unfold get_normalize. simpl.
  by rewrite store_convolver, unit_at_write_unit.
Qed.

(** With a swap the flag is the one of a unit fresh from the factory,
    whatever it was set to before. *)
Lemma get_normalize_set_buffer_swap buffer c w a :
  cn_buffer (unit_at (_convolver c) w) = Some a →
  get_normalize (set_buffer buffer c w).1 (set_buffer buffer c w).2
  = cn_normalize fresh_ConvolverNode.
Proof.
  intros H. rewrite (set_buffer_swap _ _ _ a H). unfold get_normalize. simpl.
  by rewrite unit_at_write_unit.
Qed.

(** *** Well-formedness *)

Lemma wf_node_lt c w n : wf c w → n ∈ nodes c → n < next_id w.
Proof. intros (_ & Hlt & _) Hn. by apply (proj1 (Forall_forall _ _) Hlt). Qed.

Lemma wf_edge c w e : wf c w → e ∈ edges w → edge_ok c w e.
Proof. intros (_ & _ & He) Hin. by apply (proj1 (Forall_forall _ _) He). Qed.

Lemma wf_send_lt c w : wf c w → gain_node (effectSend c) < next_id w.
Proof. intros H. apply (wf_node_lt c w); [done|]. unfold nodes. set_solver. Qed.

Lemma wf_return_lt c w : wf c w → gain_node (effectReturn c) < next_id w.
Proof. intros H. apply (wf_node_lt c w); [done|]. unfold nodes. set_solver. Qed.

Lemma wf_unit_lt c w : wf c w → _convolver c < next_id w.
Proof. intros H. apply (wf_node_lt c w); [done|]. unfold nodes. set_solver. Qed.

Lemma wf_return_ne_unit c w : wf c w → gain_node (effectReturn c) ≠ _convolver c.
Proof.
  intros (Hnd & _) Heq. unfold nodes in Hnd.
  rewrite !NoDup_cons, !elem_of_cons in Hnd. tauto.
Qed.

Lemma wf_send_ne_unit c w : wf c w → gain_node (effectSend c) ≠ _convolver c.
Proof.
  intros (Hnd & _) Heq. unfold nodes in Hnd.
  rewrite !NoDup_cons, !elem_of_cons in Hnd. tauto.
Qed.

(** The edges after the swap: the new unit has taken the place of the old one
    between effectSend and effectReturn, and nothing else has changed. *)
Lemma swap_unit_edges c w e :
  wf c w →
  e ∈ edges (swap_unit c w).2 ↔
  e = send_edge c (next_id w) ∨ e = return_edge c (next_id w) ∨
  (e ∈ edges w ∧ e ≠ send_edge c (_convolver c) ∧ e ≠ return_edge c (_convolver c)).
Proof.
  intros Hwf. rewrite swap_unit_eq. simpl.
  rewrite !elem_of_cons, !list_elem_of_filter. split.
  - intros [->|[->|(Hu & Hs & Hin)]]; [tauto | tauto |].
    right; right. split; [done|]. split; intros ->; simpl in *; congruence.
  - intros [->|[->|(Hin & Hs & Hr)]]; [tauto | tauto |].
    right; right. destruct (wf_edge c w e Hwf Hin) as (_ & _ & H1 & H2 & _).
    split; [|split]; [| |done]; intros Heq; auto.
Qed.

Lemma wf_write_unit c w n u : wf c w → wf c (write_unit n u w).
Proof. by intros H. Qed.

Lemma wf_with_buffer c w b : wf c w → wf (with_buffer b c) w.
Proof. by intros H. Qed.

Lemma wf_store buffer c w : wf c w → wf (store buffer c) w.
Proof. destruct buffer; [apply wf_with_buffer | done]. Qed.

Lemma wf_swap_unit c w : wf c w → wf (swap_unit c w).1 (swap_unit c w).2.
Proof.
  intros Hwf.
  pose proof (wf_send_lt c w Hwf) as Hs.
  pose proof (wf_return_lt c w Hwf) as Hr.
  destruct Hwf as (Hnd & Hlt & He).
  rewrite swap_unit_eq. unfold wf, nodes in *. simpl.
  rewrite !NoDup_cons in Hnd. rewrite !Forall_cons in Hlt.
  destruct Hlt as (Hi & Ho & _ & _ & Hu & _).
  split; [|split].
  - rewrite !NoDup_cons, !elem_of_cons, !elem_of_nil in *.
    repeat split; try tauto; try apply NoDup_nil_2; intros Hin;
      repeat destruct Hin as [Hin|Hin]; try lia; tauto.
  - rewrite !Forall_cons. repeat split; try lia. constructor.
  - rewrite !Forall_cons. split; [|split].
    + unfold edge_ok, return_edge, send_edge; simpl.
      repeat split; try lia; intros; try lia; try done.
    + unfold edge_ok, return_edge, send_edge; simpl.
      repeat split; try lia; intros; try lia; try done.
    + apply Forall_forall. intros e Hin.
      rewrite !list_elem_of_filter in Hin. destruct Hin as (Hne1 & Hne2 & Hin).
      destruct (proj1 (Forall_forall _ _) He e Hin) as (H1 & H2 & _).
      unfold edge_ok; simpl. repeat split; try lia; intros; try lia; done.
Qed.

Lemma wf_set_buffer buffer c w :
  wf c w → wf (set_buffer buffer c w).1 (set_buffer buffer c w).2.
Proof.
  intros Hwf.
  destruct (cn_buffer (unit_at (_convolver c) w)) as [a|] eqn:H.
  - rewrite (set_buffer_swap _ _ _ a H). simpl.
    apply wf_write_unit, wf_swap_unit, wf_store, Hwf.
  - rewrite (set_buffer_direct _ _ _ H). simpl.
    apply wf_write_unit, wf_store, Hwf.
Qed.

(** *** The constructor *)

Lemma not_loaded_get b :
  ToneAudioBuffer.loaded b = false → ToneAudioBuffer.get b = None.
Proof.
  unfold ToneAudioBuffer.loaded, truthy, ToneAudioBuffer.length,
    ToneAudioBuffer.get.
  destruct (ToneAudioBuffer._buffer b); [|done]. simpl. discriminate.
Qed.

Lemma new_shape args w :
  let c := (new args w).1 in
  let w' := (new args w).2 in
  let options := optionsFromArguments getDefaults args in
  c = {| input := mkGain (next_id w) 1;
         output := mkGain (1 + next_id w) 1;
         effectSend := mkGain (2 + next_id w) 1;
         effectReturn := mkGain (3 + next_id w) 1;
         _convolver := 4 + next_id w;
         _buffer := new_ToneAudioBuffer (opt_url options) (opt_onload options) |} ∧
  next_id w' = 5 + next_id w ∧
  edges w' = return_edge c (_convolver c) :: send_edge c (_convolver c) ::
             mkEdge (gain_node (effectReturn c)) 0 (NodeInput (gain_node (output c)) 0) ::
             mkEdge (gain_node (input c)) 0 (NodeInput (gain_node (effectSend c)) 0) ::
             mkEdge (gain_node (input c)) 0 (NodeInput (gain_node (output c)) 0) ::
             edges w ∧
  unit_at (_convolver c) w' =
    {| cn_buffer := ToneAudioBuffer.get (_buffer c);
       cn_normalize := opt_normalize options |} ∧
  disposed w' = disposed w ∧ invoked w' = invoked w.
Proof.
  unfold new. simpl.
  destruct (ToneAudioBuffer.loaded _) eqn:Hl.
  - rewrite set_buffer_direct.
    2:{ unfold unit_at; simpl. by rewrite lookup_insert_eq. }
    simpl. repeat split.
    + f_equal. by destruct (new_ToneAudioBuffer _ _).
    + unfold unit_at; simpl. rewrite lookup_insert_eq. simpl.
      by rewrite unit_at_write_unit.
  - simpl. repeat split.
    unfold unit_at; simpl. rewrite !lookup_insert_eq. simpl.
    unfold unit_at; simpl. rewrite !lookup_insert_eq. simpl.
    by rewrite (not_loaded_get _ Hl).
Qed.

Local Ltac edge_ok_tac :=
  unfold edge_ok, send_edge, return_edge; simpl;
  repeat split; intros; simplify_eq; try lia; try done.

Lemma wf_new args w : World_ok w → wf (new args w).1 (new args w).2.
Proof.
  intros Hw. destruct (new_shape args w) as (Hc & Hn & He & _).
  unfold wf. rewrite He, Hn. rewrite Hc. unfold nodes. simpl.
  split; [|split].
  - rewrite !NoDup_cons, !elem_of_cons, !elem_of_nil.
    repeat split; try apply NoDup_nil_2; intros Hin;
      repeat destruct Hin as [Hin|Hin]; try lia; tauto.
  - rewrite !Forall_cons. repeat split; try lia. constructor.
  - rewrite !Forall_cons. repeat split; try (simpl; lia); try edge_ok_tac.
    apply Forall_forall. intros e Hin.
    destruct (proj1 (Forall_forall _ _) Hw e Hin) as (H1 & H2).
    edge_ok_tac.
Qed.

Lemma wf_connect src out dst c w :
  wf c w →
  src < next_id w → port_node dst < next_id w →
  src ≠ gain_node (effectSend c) → src ≠ _convolver c →
  port_node dst ≠ _convolver c →
  wf c (connect src out dst w).
Proof.
  intros (Hnd & Hlt & He) H1 H2 H3 H4 H5. unfold wf. simpl.
  split; [done|]. split; [done|].
  rewrite Forall_cons. split; [edge_ok_tac|done].
Qed.

Lemma wf_createNode c w : wf c w → wf c (createNode w).2.
Proof.
  intros (Hnd & Hlt & He). unfold wf. simpl. split; [done|]. split.
  - eapply Forall_impl; [exact Hlt|]. simpl. intros; lia.
  - eapply Forall_impl; [exact He|]. intros e (?&?&?&?&?).
    unfold edge_ok; simpl. repeat split; auto; lia.
Qed.

Lemma wf_invoke f c w : wf c w → wf c (invoke f w).
Proof. by destruct f. Qed.

Lemma wf_set_normalize norm c w : wf c w → wf c (set_normalize norm c w).
Proof. by intros H. Qed.

Lemma load_resolved_inv loader url c w c' w' :
  load loader url c w = Resolved (c', w') →
  ∃ a, loader url = Decoded a ∧
       let b := ToneAudioBuffer.mk (Some a) (ToneAudioBuffer.onload (_buffer c)) in
       (c', w') = set_buffer (Some b) (with_buffer b c) w.
Proof.
  unfold load, ToneAudioBuffer.load. destruct (loader url) as [a|e]; [|done].
  intros [= <-]. by exists a.
Qed.

Lemma load_rejected_inv loader url (err : LoadError) c w c' w' :
  load loader url c w = Rejected err (c', w') →
  loader url = Failed err ∧ c' = c ∧ w' = w.
Proof.
  unfold load, ToneAudioBuffer.load. destruct (loader url) as [a|e0]; [done|].
  rewrite with_buffer_same. by intros [= -> <- <-].
Qed.

(** Every state of a live Convolver is well-formed. *)
Lemma reachable_wf c w : reachable c w → wf c w.
Proof.
  induction 1 as [args w Hw | buffer c w _ IH | norm c w _ IH
                 | loader url c w c' w' _ IH Hl | loader url e c w c' w' _ IH Hl
                 | a c w _ IH | src out dst c w _ IH H1 H2 H3 H4 H5 | c w _ IH].
  - by apply wf_new.
  - by apply wf_set_buffer.
  - by apply wf_set_normalize.
  - apply load_resolved_inv in Hl as (a & _ & Heq). simpl in Heq.
    pose proof (wf_set_buffer
      (Some (ToneAudioBuffer.mk (Some a) (ToneAudioBuffer.onload (_buffer c))))
      (with_buffer (ToneAudioBuffer.mk (Some a) (ToneAudioBuffer.onload (_buffer c))) c)
      w (wf_with_buffer _ _ _ IH)) as H.
    by rewrite <- Heq in H.
  - apply load_rejected_inv in Hl as (_ & -> & ->). done.
  - unfold constructor_onload.
    pose proof (wf_set_buffer
      (Some (ToneAudioBuffer.mk (Some a) (ToneAudioBuffer.onload (_buffer c))))
      (with_buffer (ToneAudioBuffer.mk (Some a) (ToneAudioBuffer.onload (_buffer c))) c)
      w (wf_with_buffer _ _ _ IH)) as H.
    destruct (set_buffer _ _ w) as [c1 w1]. simpl in *. by apply wf_invoke.
  - by apply wf_connect.
  - by apply wf_createNode.
Qed.

(** In every state of a live Convolver the unit in place holds the data of
    the Resource Buffer. *)
Lemma reachable_synced c w : reachable c w → synced c w.
Proof.
  unfold synced.
  induction 1 as [args w Hw | buffer c w _ IH | norm c w _ IH
                 | loader url c w c' w' _ IH Hl | loader url e c w c' w' _ IH Hl
                 | a c w _ IH | src out dst c w _ IH H1 H2 H3 H4 H5 | c w _ IH].
  - destruct (new_shape args w) as (_ & _ & _ & Hu & _). by rewrite Hu.
  - apply set_buffer_unit.
  - unfold set_normalize. by rewrite unit_at_write_unit.
  - apply load_resolved_inv in Hl as (a & _ & Heq). simpl in Heq.
    pose proof (set_buffer_unit
      (Some (ToneAudioBuffer.mk (Some a) (ToneAudioBuffer.onload (_buffer c))))
      (with_buffer (ToneAudioBuffer.mk (Some a) (ToneAudioBuffer.onload (_buffer c))) c)
      w) as H.
    by rewrite <- Heq in H.
  - apply load_rejected_inv in Hl as (_ & -> & ->). done.
  - unfold constructor_onload.
    pose proof (set_buffer_unit
      (Some (ToneAudioBuffer.mk (Some a) (ToneAudioBuffer.onload (_buffer c))))
      (with_buffer (ToneAudioBuffer.mk (Some a) (ToneAudioBuffer.onload (_buffer c))) c)
      w) as H.
    destruct (set_buffer _ _ w) as [c1 w1]. simpl in *.
    by destruct (ToneAudioBuffer.onload (_buffer c1)).
  - done.
  - done.
Qed.

(** *** The getter *)

(** C5: the buffer getter returns the backing Resource Buffer exactly when
    the length of that buffer is not zero, and returns the absence value,
    without raising, when the length is zero. *)
Theorem get_buffer_present_iff_nonempty c :
  match get_buffer c with
  | Some b => b = _buffer c ∧ ToneAudioBuffer.length (_buffer c) ≠ 0
  | None => ToneAudioBuffer.length (_buffer c) = 0
  end.
Proof.
  unfold get_buffer, truthy.
  destruct (Nat.eqb_spec (ToneAudioBuffer.length (_buffer c)) 0); simpl; auto.
Qed.

(** *** A rejected load *)

(** C4: when the loader rejects, [load] rejects with the same error and
    leaves the Convolver and the world as they were: the Resource Buffer, the
    unit in place, its attributes and every connection. *)
Theorem load_rejected_leaves_state loader url (err : LoadError) c w :
  loader url = Failed err →
  load loader url c w = Rejected err (c, w).
Proof.
  intros H. unfold load, ToneAudioBuffer.load. rewrite H.
  by rewrite with_buffer_same.
Qed.

Lemma load_rejected_leaves_state_witness :
  Scenario.loader "missing.wav"%string = Failed FetchError ∧
  load Scenario.loader "missing.wav"%string Scenario.built.1 Scenario.built.2
  = Rejected FetchError (Scenario.built.1, Scenario.built.2).
Proof.
  split; [reflexivity|].
  apply (load_rejected_leaves_state Scenario.loader "missing.wav"%string FetchError).
  reflexivity.
Defined.

(** *** The swap of the unit *)

Lemma built_wf : wf Scenario.built.1 Scenario.built.2.
Proof. apply (bool_decide_unpack _). vm_compute. exact I. Qed.



(** *** The setter, step by step *)

(** The setter when the unit in place holds a buffer. *)
Lemma set_buffer_replaces buffer c w a :
  wf c w →
  cn_buffer (unit_at (_convolver c) w) = Some a →
  let c' := (set_buffer buffer c w).1 in
  let w' := (set_buffer buffer c w).2 in
  _convolver c' = next_id w ∧ _convolver c' ≠ _convolver c ∧
  (∀ e, e ∈ edges w' ↔
        e = send_edge c (_convolver c') ∨ e = return_edge c (_convolver c') ∨
        (e ∈ edges w ∧ e ≠ send_edge c (_convolver c)
                     ∧ e ≠ return_edge c (_convolver c))) ∧
  (∀ e, e ∈ edges w' →
        e_src e ≠ _convolver c ∧ port_node (e_dst e) ≠ _convolver c) ∧
  convolvers w' !! _convolver c = convolvers w !! _convolver c.
Proof.
  intros Hwf Hu c' w'. subst c' w'.
  rewrite (set_buffer_swap _ _ _ a Hu). simpl.
  pose proof (wf_unit_lt c w Hwf) as Hlt.
  pose proof (wf_store buffer c w Hwf) as Hwf'.
  assert (Hedges : ∀ e, e ∈ edges (swap_unit (store buffer c) w).2 ↔
        e = send_edge c (next_id w) ∨ e = return_edge c (next_id w) ∨
        (e ∈ edges w ∧ e ≠ send_edge c (_convolver c)
                     ∧ e ≠ return_edge c (_convolver c))).
  { intros e. rewrite (swap_unit_edges _ _ e Hwf').
    rewrite store_convolver. unfold send_edge, return_edge.
    destruct (store_ports buffer c) as (_ & _ & -> & ->). reflexivity. }
  split; [reflexivity|]. split; [lia|]. split; [exact Hedges|]. split.
  - intros e He. apply Hedges in He.
    pose proof (wf_send_ne_unit c w Hwf). pose proof (wf_return_ne_unit c w Hwf).
    destruct He as [->|[->|(Hin & Hs & Hr)]]; simpl; [split; lia | split; lia |].
    destruct (wf_edge c w e Hwf Hin) as (_ & _ & H1 & H2 & H3).
    split.
    + intros Heq. apply Hr. by apply H2.
    + intros Heq. apply Hs. by apply H1, H3.
  - rewrite lookup_insert_ne by lia.
    by rewrite lookup_insert_ne by lia.
Qed.

(** Two loads in a row. *)
Lemma load_twice loader url1 url2 a1 a2 c w :
  wf c w →
  loader url1 = Decoded a1 → loader url2 = Decoded a2 →
  ∃ c1 w1 c2 w2,
    load loader url1 c w = Resolved (c1, w1) ∧
    load loader url2 c1 w1 = Resolved (c2, w2) ∧
    cn_buffer (unit_at (_convolver c1) w1) = Some a1 ∧
    _convolver c2 ≠ _convolver c1 ∧
    convolvers w2 !! _convolver c1 = convolvers w1 !! _convolver c1 ∧
    (∀ e, e ∈ edges w2 →
          e_src e ≠ _convolver c1 ∧ port_node (e_dst e) ≠ _convolver c1) ∧
    send_edge c2 (_convolver c2) ∈ edges w2 ∧
    return_edge c2 (_convolver c2) ∈ edges w2 ∧
    cn_buffer (unit_at (_convolver c2) w2) = Some a2.
Proof.
  intros Hwf H1 H2.
  set (b1 := ToneAudioBuffer.mk (Some a1) (ToneAudioBuffer.onload (_buffer c))).
  set (s1 := set_buffer (Some b1) (with_buffer b1 c) w).
  set (b2 := ToneAudioBuffer.mk (Some a2) (ToneAudioBuffer.onload (_buffer s1.1))).
  set (s2 := set_buffer (Some b2) (with_buffer b2 s1.1) s1.2).
  exists s1.1, s1.2, s2.1, s2.2.
  assert (Hwf1 : wf s1.1 s1.2) by apply wf_set_buffer, wf_with_buffer, Hwf.
  assert (Hu1 : cn_buffer (unit_at (_convolver s1.1) s1.2) = Some a1).
  { subst s1. rewrite set_buffer_unit, set_buffer_buffer. reflexivity. }
  assert (Hu2 : cn_buffer (unit_at (_convolver s2.1) s2.2) = Some a2).
  { subst s2. rewrite set_buffer_unit, set_buffer_buffer. reflexivity. }
  destruct (set_buffer_replaces (Some b2) (with_buffer b2 s1.1) s1.2 a1
              (wf_with_buffer _ _ _ Hwf1) Hu1) as (Hn & Hne & Hedges & Hiso & Hold).
  fold s2 in Hn, Hne, Hedges, Hiso, Hold. simpl in *.
  destruct (set_buffer_ports (Some b2) (with_buffer b2 s1.1) s1.2)
    as (_ & _ & Hs & Hr).
  fold s2 in Hs, Hr. simpl in Hs, Hr.
  repeat split.
  - unfold load, ToneAudioBuffer.load. rewrite H1. fold b1. fold s1.
    by destruct s1.
  - unfold load, ToneAudioBuffer.load. rewrite H2. fold b2. fold s2.
    by destruct s2.
  - exact Hu1.
  - exact Hne.
  - exact Hold.
  - by apply Hiso.
  - by apply Hiso.
  - apply Hedges. left. unfold send_edge. by rewrite Hs.
  - apply Hedges. right; left. unfold return_edge. by rewrite Hr.
  - exact Hu2.
Qed.

(** C2: the setter first stores the data in the Resource Buffer.  If the unit
    in place holds a buffer, a fresh unit replaces it: the old unit loses its
    two edges, the new unit gets the same two, and the old unit is not written
    to; otherwise the unit in place is kept.  In both cases the unit in place
    afterwards holds the data of the Resource Buffer.  Hence of two successful
    loads the second replaces the unit of the first: that unit still holds the
    first impulse, no edge starts or ends at it, and the unit now wired between
    effectSend and effectReturn holds the second impulse. *)
Theorem set_buffer_replaces_unit b c w :
  wf c w →
  let c' := (set_buffer (Some b) c w).1 in
  let w' := (set_buffer (Some b) c w).2 in
  _buffer c' = ToneAudioBuffer.set b (_buffer c) ∧
  cn_buffer (unit_at (_convolver c') w') = ToneAudioBuffer.get (_buffer c') ∧
  match cn_buffer (unit_at (_convolver c) w) with
  | Some _ =>
      _convolver c' = next_id w ∧ _convolver c' ≠ _convolver c ∧
      (∀ e, e ∈ edges w' ↔
            e = send_edge c (_convolver c') ∨ e = return_edge c (_convolver c') ∨
            (e ∈ edges w ∧ e ≠ send_edge c (_convolver c)
                         ∧ e ≠ return_edge c (_convolver c))) ∧
      (∀ e, e ∈ edges w' →
            e_src e ≠ _convolver c ∧ port_node (e_dst e) ≠ _convolver c) ∧
      convolvers w' !! _convolver c = convolvers w !! _convolver c
  | None =>
      _convolver c' = _convolver c ∧ edges w' = edges w ∧
      next_id w' = next_id w
  end ∧
  (∀ (loader : Loader) url1 url2 a1 a2,
     loader url1 = Decoded a1 → loader url2 = Decoded a2 →
     ∃ c1 w1 c2 w2,
       load loader url1 c w = Resolved (c1, w1) ∧
       load loader url2 c1 w1 = Resolved (c2, w2) ∧
       cn_buffer (unit_at (_convolver c1) w1) = Some a1 ∧
       _convolver c2 ≠ _convolver c1 ∧
       convolvers w2 !! _convolver c1 = convolvers w1 !! _convolver c1 ∧
       (∀ e, e ∈ edges w2 →
             e_src e ≠ _convolver c1 ∧ port_node (e_dst e) ≠ _convolver c1) ∧
       send_edge c2 (_convolver c2) ∈ edges w2 ∧
       return_edge c2 (_convolver c2) ∈ edges w2 ∧
       cn_buffer (unit_at (_convolver c2) w2) = Some a2).
Proof.
  intros Hwf c' w'. subst c' w'.
  split; [apply set_buffer_buffer|]. split; [apply set_buffer_unit|]. split.
  - destruct (cn_buffer (unit_at (_convolver c) w)) as [a|] eqn:Hu.
    + exact (set_buffer_replaces (Some b) c w a Hwf Hu).
    + rewrite (set_buffer_direct _ _ _ Hu). by simpl.
  - intros loader url1 url2 a1 a2 H1 H2. by apply load_twice.
Qed.

Lemma set_buffer_replaces_unit_witness :
  wf Scenario.built.1 Scenario.built.2 ∧
  _convolver (set_buffer (Some (ToneAudioBuffer.mk (Some Scenario.impulse2) noOp))
                Scenario.built.1 Scenario.built.2).1
  = next_id Scenario.built.2.
Proof.
  assert (Hwf : wf Scenario.built.1 Scenario.built.2)
    by (apply (bool_decide_unpack _); vm_compute; exact I).
  split; [exact Hwf|].
  exact (proj1 (proj1 (proj2 (proj2
    (set_buffer_replaces_unit
       (ToneAudioBuffer.mk (Some Scenario.impulse2) noOp) _ _ Hwf))))).
Defined.

(** *** Assigning null *)

(** C10, as the code has it: when the unit in place holds the data of the
    Resource Buffer (as it does in every state before [dispose]), assigning
    null to [buffer] leaves the Resource Buffer as it is (data and length);
    if the unit held a buffer, a fresh unit replaces it between effectSend
    and effectReturn, receives those same data, and the old unit is not
    written to; otherwise the unit is kept and no edge changes.  In both
    cases the unit in place afterwards holds the buffer the unit in place
    held before. *)
Theorem set_buffer_null_keeps_content c w :
  synced c w →
  wf c w →
  let c' := (set_buffer None c w).1 in
  let w' := (set_buffer None c w).2 in
  _buffer c' = _buffer c ∧
  ToneAudioBuffer.length (_buffer c') = ToneAudioBuffer.length (_buffer c) ∧
  cn_buffer (unit_at (_convolver c') w') = cn_buffer (unit_at (_convolver c) w) ∧
  match cn_buffer (unit_at (_convolver c) w) with
  | Some a =>
      _convolver c' = next_id w ∧ _convolver c' ≠ _convolver c ∧
      cn_buffer (unit_at (_convolver c') w') = Some a ∧
      ToneAudioBuffer.get (_buffer c') = Some a ∧
      send_edge c (_convolver c') ∈ edges w' ∧
      return_edge c (_convolver c') ∈ edges w' ∧
      (∀ e, e ∈ edges w' →
            e_src e ≠ _convolver c ∧ port_node (e_dst e) ≠ _convolver c) ∧
      convolvers w' !! _convolver c = convolvers w !! _convolver c
  | None => _convolver c' = _convolver c ∧ edges w' = edges w
  end.
Proof.
  intros Hs Hwf c' w'. subst c' w'. unfold synced in Hs.
  assert (Hb : _buffer (set_buffer None c w).1 = _buffer c)
    by apply set_buffer_buffer.
  assert (Hu : cn_buffer (unit_at (_convolver (set_buffer None c w).1)
                            (set_buffer None c w).2)
               = cn_buffer (unit_at (_convolver c) w))
    by by rewrite set_buffer_unit, Hb.
  split; [exact Hb|]. split; [by rewrite Hb|]. split; [exact Hu|].
  destruct (cn_buffer (unit_at (_convolver c) w)) as [a|] eqn:Hc.
  - destruct (set_buffer_replaces None c w a Hwf Hc)
      as (H1 & H2 & Hedges & Hiso & H3).
    repeat split; try done.
    + by rewrite Hb, <- Hs.
    + apply Hedges. by left.
    + apply Hedges. right; by left.
    + by apply Hiso.
    + by apply Hiso.
  - by rewrite (set_buffer_direct _ _ _ Hc).
Qed.

Lemma set_buffer_null_keeps_content_witness :
  synced LoadedScenario.c LoadedScenario.w ∧
  wf LoadedScenario.c LoadedScenario.w ∧
  _convolver (set_buffer None LoadedScenario.c LoadedScenario.w).1 = 5 ∧
  cn_buffer (unit_at 5 (set_buffer None LoadedScenario.c LoadedScenario.w).2)
  = Some Scenario.impulse1.
Proof.
  assert (Hs : synced LoadedScenario.c LoadedScenario.w) by reflexivity.
  assert (Hwf : wf LoadedScenario.c LoadedScenario.w)
    by (apply (bool_decide_unpack _); vm_compute; exact I).
  split; [exact Hs|]. split; [exact Hwf|].
  pose proof (set_buffer_null_keeps_content _ _ Hs Hwf) as H.
  cbv zeta in H. destruct H as (_ & _ & _ & H).
  change (cn_buffer (unit_at (_convolver LoadedScenario.c) LoadedScenario.w))
    with (Some Scenario.impulse1) in H.
  cbv iota beta in H. destruct H as (H1 & _ & H2 & _).
  split; [exact H1|]. rewrite <- H1 at 1. exact H2.
Defined.

(** C10, as stated for every Convolver, fails in two ways.  On a disposed
    Convolver the Resource Buffer is empty while the unit still holds its
    impulse, and a null assignment puts a unit without buffer in its place.
    And on a live Convolver whose [normalize] was set to false, a null
    assignment keeps the buffer but puts a unit in place whose [normalize] is
    true, so the impulse is no longer rendered as before. *)
Lemma null_assignment_changes_content :
  (let d := dispose Scenario.built.1 Scenario.built.2 in
   let s := set_buffer None d.1 d.2 in
   cn_buffer (unit_at (_convolver d.1) d.2) = Some Scenario.impulse1 ∧
   cn_buffer (unit_at (_convolver s.1) s.2) = None) ∧
  (let s := set_buffer None LoadedScenario.c LoadedScenario.w in
   unit_at (_convolver LoadedScenario.c) LoadedScenario.w
     = {| cn_buffer := Some Scenario.impulse1; cn_normalize := false |} ∧
   unit_at (_convolver s.1) s.2
     = {| cn_buffer := Some Scenario.impulse1; cn_normalize := true |}).
Proof. vm_compute. repeat split. Qed.

(** *** normalize across a swap *)

(** C1, evaluated: a Convolver built on an impulse of length 2; [normalize]
    is set to false and reads false; a buffer of length 3 is assigned, which
    swaps the unit; the buffer getter then returns a buffer of length 3, but
    [normalize] reads true, not the false that was last assigned. *)
Theorem normalize_lost_on_swap :
  let c0 := Scenario.built.1 in
  let w1 := set_normalize false c0 Scenario.built.2 in
  let s2 := set_buffer (Some (ToneAudioBuffer.mk (Some Scenario.impulse2) noOp))
              c0 w1 in
  get_normalize c0 w1 = false ∧
  is_Some (cn_buffer (unit_at (_convolver c0) w1)) ∧
  ToneAudioBuffer.length <$> get_buffer s2.1 = Some 3 ∧
  _convolver s2.1 ≠ _convolver c0 ∧
  get_normalize s2.1 s2.2 = true.
Proof.
  vm_compute. repeat split; try discriminate. by eexists.
Qed.

End ConvolverProps.

(** ** Disposal *)

Module DisposeProps.

Lemma CrossFade_dispose_prune (c : CrossFade.t) :
  ∃ ns ds, ∀ w, CrossFade.dispose c w = prune ns ds w.
Proof.
  eexists _, _. intros w0.
  unfold CrossFade.dispose, ToneAudioNode_dispose.
  rewrite <- (prune_nil w0) at 1.
  rewrite !dispose_node_prune, !disconnect_prune. reflexivity.
Qed.

Lemma Effect_dispose_prune (c : Convolver.t) :
  ∃ ns ds, ∀ w, disconnect (Convolver._convolver c) (Convolver.Effect_dispose c w)
                = prune ns ds w.
Proof.
  eexists _, _. intros w0.
  unfold Convolver.Effect_dispose.
  rewrite <- (prune_nil w0) at 1.
  rewrite !dispose_node_prune, !disconnect_prune. reflexivity.
Qed.

Lemma AmplitudeEnvelope_dispose_prune (c : AmplitudeEnvelope.t) :
  ∃ ns ds, ∀ w, AmplitudeEnvelope.dispose c w = prune ns ds w.
Proof.
  eexists _, _. intros w0.
  unfold AmplitudeEnvelope.dispose, AmplitudeEnvelope.Envelope_dispose,
    ToneAudioNode_dispose.
  rewrite <- (prune_nil w0) at 1.
  rewrite !dispose_node_prune. reflexivity.
Qed.

(** C7: disposing a CrossFade, a Convolver or an AmplitudeEnvelope a second
    time changes nothing: in any state, the state after two calls of
    [dispose] is the state after one.  [dispose] is a total function: it has
    no failing case. *)
Theorem dispose_twice :
  (∀ (c : CrossFade.t) (w : World),
     CrossFade.dispose c (CrossFade.dispose c w) = CrossFade.dispose c w) ∧
  (∀ (c : Convolver.t) (w : World),
     Convolver.dispose (Convolver.dispose c w).1 (Convolver.dispose c w).2
     = Convolver.dispose c w) ∧
  (∀ (c : AmplitudeEnvelope.t) (w : World),
     AmplitudeEnvelope.dispose c (AmplitudeEnvelope.dispose c w)
     = AmplitudeEnvelope.dispose c w).
Proof.
  split; [|split].
  - intros c w. destruct (CrossFade_dispose_prune c) as (ns & ds & H).
    rewrite !H. apply prune_idemp.
  - intros c w. destruct (Effect_dispose_prune c) as (ns & ds & H).
    unfold Convolver.dispose. simpl. f_equal.
    change (disconnect (Convolver._convolver c)
              (Convolver.Effect_dispose c
                 (disconnect (Convolver._convolver c) (Convolver.Effect_dispose c w)))
            = disconnect (Convolver._convolver c) (Convolver.Effect_dispose c w)).
    rewrite !H. apply prune_idemp.
  - intros c w. destruct (AmplitudeEnvelope_dispose_prune c) as (ns & ds & H).
    rewrite !H. apply prune_idemp.
Qed.

End DisposeProps.

(** ** Defaults *)

Module DefaultsProps.

(** C8: a CrossFade constructed without a fade argument has a fade signal of
    initial value 1/2; a Convolver constructed without options reads
    [normalize] as true and has [noOp] as its onload callback, which, when
    invoked, leaves the world as it is. *)
Theorem defaults_without_arguments :
  (∀ w, sig_value (CrossFade.fade (CrossFade.new None w).1) = 1 # 2) ∧
  (∀ w, Convolver.get_normalize
          (Convolver.new Convolver.no_arguments w).1
          (Convolver.new Convolver.no_arguments w).2 = true) ∧
  Convolver.opt_onload
    (Convolver.optionsFromArguments Convolver.getDefaults Convolver.no_arguments)
  = noOp ∧
  (∀ w, ToneAudioBuffer.onload
          (Convolver._buffer (Convolver.new Convolver.no_arguments w).1) = noOp) ∧
  (∀ w, invoke noOp w = w).
Proof.
  split; [|split; [|split; [|split]]].
  - reflexivity.
  - intros w.
    destruct (ConvolverProps.new_shape Convolver.no_arguments w)
      as (_ & _ & _ & Hu & _).
    unfold Convolver.get_normalize. by rewrite Hu.
  - reflexivity.
  - intros w.
    destruct (ConvolverProps.new_shape Convolver.no_arguments w) as (Hc & _).
    by rewrite Hc.
  - reflexivity.
Qed.

End DefaultsProps.

(** ** CrossFade *)

Module CrossFadeProps.
Import CrossFade.

(** The wiring the constructor makes: constant -> panner -> splitter, output
    0 to [a.gain], output 1 to [b.gain], fade -> GainToAudio -> [panner.pan],
    and [a], [b] -> output; both gains start from the value 0. *)
Lemma new_wiring arg w :
  let c := (new arg w).1 in
  let one := 7 + next_id w in
  edges (new arg w).2 =
    mkEdge (gain_node (b c)) 0 (NodeInput (gain_node (output c)) 0) ::
    mkEdge (gain_node (a c)) 0 (NodeInput (gain_node (output c)) 0) ::
    mkEdge (_g2a c) 0 (PanParam (_panner c)) ::
    mkEdge (sig_node (fade c)) 0 (NodeInput (_g2a c) 0) ::
    mkEdge (_split c) 1 (GainParam (gain_node (b c))) ::
    mkEdge (_split c) 0 (GainParam (gain_node (a c))) ::
    mkEdge (_panner c) 0 (NodeInput (_split c) 0) ::
    mkEdge one 0 (NodeInput (_panner c) 0) :: edges w ∧
  gain_value (a c) = 0%Q ∧ gain_value (b c) = 0%Q ∧
  _internalChannels c = [a c; b c].
Proof. by simpl. Qed.

End CrossFadeProps.

(** ** AmplitudeEnvelope *)

Module AmplitudeEnvelopeProps.
Import AmplitudeEnvelope.



End AmplitudeEnvelopeProps.

(** * Further properties *)

(** ** Convolver: what holds in every state of a live Convolver *)

Module ConvolverInvariants.
Import Convolver Routing.

Implicit Types (c : t) (w : World).

Lemma filter_none {A} (P : A → Prop) `{∀ x, Decision (P x)} (l : list A) :
  Forall (λ x, ¬ P x) l → filter P l = [].
Proof.
  induction 1 as [|x l Hx _ IH]; [done|].
  by rewrite filter_cons_False.
Qed.

Lemma routed_new args w : World_ok w → routed (new args w).1 (new args w).2.
Proof.
  intros Hw. destruct (ConvolverProps.new_shape args w) as (Hc & _ & He & _).
  unfold routed. rewrite He, Hc. simpl.
  assert (Hold : ∀ (P : Edge → Prop) `{∀ e, Decision (P e)},
            (∀ e, P e → next_id w ≤ e_src e ∨ next_id w ≤ port_node (e_dst e)) →
            filter P (edges w) = []).
  { intros P HP Himp. apply filter_none. apply Forall_forall. intros e Hin HPe.
    destruct (proj1 (Forall_forall _ _) Hw e Hin). destruct (Himp e HPe); lia. }
  unfold send_edge, return_edge. simpl.
  repeat split.
  - rewrite filter_cons_False by (simpl; lia).
    rewrite filter_cons_True by done.
    rewrite !filter_cons_False by (simpl; lia).
    rewrite Hold; [done|]. intros e ->. lia.
  - rewrite filter_cons_True by done.
    rewrite !filter_cons_False by (simpl; lia).
    rewrite Hold; [done|]. intros e ->. lia.
  - rewrite filter_cons_False by (simpl; lia).
    rewrite filter_cons_True by done.
    rewrite !filter_cons_False by (simpl; lia).
    rewrite Hold; [done|]. intros e ->. lia.
Qed.

Lemma routed_swap_unit c w :
  wf c w → routed (swap_unit c w).1 (swap_unit c w).2.
Proof.
  intros Hwf.
  pose proof (ConvolverProps.wf_send_lt c w Hwf) as Hs.
  pose proof (ConvolverProps.wf_return_lt c w Hwf) as Hr.
  rewrite ConvolverProps.swap_unit_eq. unfold routed, send_edge, return_edge.
  simpl.
  set (l := filter (λ e, e_src e ≠ _convolver c)
              (filter (λ e, e_src e ≠ gain_node (effectSend c)) (edges w))).
  assert (Hl : ∀ e, e ∈ l → e_src e ≠ gain_node (effectSend c) ∧
                    e_src e < next_id w ∧ port_node (e_dst e) < next_id w).
  { intros e Hin. subst l. rewrite !list_elem_of_filter in Hin.
    destruct Hin as (_ & Hne & Hin).
    destruct (ConvolverProps.wf_edge c w e Hwf Hin) as (H1 & H2 & _). auto. }
  assert (Hnone : ∀ (P : Edge → Prop) `{∀ e, Decision (P e)},
            (∀ e, P e → e_src e = gain_node (effectSend c) ∨
                        next_id w ≤ e_src e ∨ next_id w ≤ port_node (e_dst e)) →
            filter P l = []).
  { intros P HP Himp. apply filter_none. apply Forall_forall. intros e Hin HPe.
    destruct (Hl e Hin) as (H1 & H2 & H3).
    destruct (Himp e HPe) as [?|[?|?]]; [done | lia | lia]. }
  repeat split.
  - rewrite filter_cons_False by (simpl; lia).
    rewrite filter_cons_True by done.
    rewrite Hnone; [done|]. intros e ->. by left.
  - rewrite filter_cons_True by done.
    rewrite filter_cons_False by (simpl; lia).
    rewrite Hnone; [done|]. intros e ->. right; left; lia.
  - rewrite filter_cons_False by (simpl; lia).
    rewrite filter_cons_True by done.
    rewrite Hnone; [done|]. intros e ->. right; right; lia.
Qed.

Lemma routed_store buffer c w : routed c w → routed (store buffer c) w.
Proof. by destruct buffer. Qed.

Lemma routed_set_buffer buffer c w :
  wf c w → routed c w →
  routed (set_buffer buffer c w).1 (set_buffer buffer c w).2.
Proof.
  intros Hwf Hr.
  destruct (cn_buffer (unit_at (_convolver c) w)) as [a|] eqn:H.
  - rewrite (ConvolverProps.set_buffer_swap _ _ _ a H).
    apply (routed_swap_unit (store buffer c) w).
    by apply ConvolverProps.wf_store.
  - rewrite (ConvolverProps.set_buffer_direct _ _ _ H).
    by apply routed_store.
Qed.

Lemma routed_connect src out dst c w :
  routed c w →
  src ≠ gain_node (effectSend c) → src ≠ _convolver c →
  port_node dst ≠ _convolver c →
  routed c (connect src out dst w).
Proof.
  intros (H1 & H2 & H3) Hs Hu Hd. unfold routed. simpl.
  by rewrite !filter_cons_False.
Qed.

Lemma reachable_routed c w : reachable c w → routed c w.
Proof.
  induction 1 as [args w Hw | buffer c w Hr IH | norm c w _ IH
                 | loader url c w c' w' Hr IH Hl | loader url e c w c' w' _ IH Hl
                 | a c w Hr IH | src out dst c w _ IH H1 H2 H3 H4 H5 | c w _ IH].
  - by apply routed_new.
  - apply routed_set_buffer; [by apply ConvolverProps.reachable_wf | done].
  - done.
  - apply ConvolverProps.load_resolved_inv in Hl as (a & _ & Heq). simpl in Heq.
    pose proof (routed_set_buffer
      (Some (ToneAudioBuffer.mk (Some a) (ToneAudioBuffer.onload (_buffer c))))
      (with_buffer (ToneAudioBuffer.mk (Some a) (ToneAudioBuffer.onload (_buffer c))) c)
      w (ConvolverProps.wf_with_buffer _ _ _ (ConvolverProps.reachable_wf _ _ Hr)) IH)
      as H.
    by rewrite <- Heq in H.
  - apply ConvolverProps.load_rejected_inv in Hl as (_ & -> & ->). done.
  - unfold constructor_onload.
    pose proof (routed_set_buffer
      (Some (ToneAudioBuffer.mk (Some a) (ToneAudioBuffer.onload (_buffer c))))
      (with_buffer (ToneAudioBuffer.mk (Some a) (ToneAudioBuffer.onload (_buffer c))) c)
      w (ConvolverProps.wf_with_buffer _ _ _ (ConvolverProps.reachable_wf _ _ Hr)) IH)
      as H.
    destruct (set_buffer _ _ w) as [c1 w1]. simpl in *.
    by destruct (ToneAudioBuffer.onload (_buffer c1)).
  - by apply routed_connect.
  - done.
Qed.

Lemma get_buffer_None_iff c :
  get_buffer c = None ↔ ToneAudioBuffer.get (_buffer c) = None.
Proof.
  unfold get_buffer, truthy, ToneAudioBuffer.length, ToneAudioBuffer.get.
  destruct (ToneAudioBuffer._buffer (_buffer c)); simpl; split; done.
Qed.

(** X1: in every state of a live Convolver the convolution unit in place
    holds exactly the sample data of the Resource Buffer; so the buffer getter
    answers null exactly when the unit has no buffer. *)
Theorem live_unit_in_sync c w :
  reachable c w →
  cn_buffer (unit_at (_convolver c) w) = ToneAudioBuffer.get (_buffer c) ∧
  (get_buffer c = None ↔ cn_buffer (unit_at (_convolver c) w) = None).
Proof.
  intros Hr. pose proof (ConvolverProps.reachable_synced c w Hr) as Hs.
  unfold synced in Hs. split; [exact Hs|].
  rewrite Hs. apply get_buffer_None_iff.
Qed.

Lemma live_unit_in_sync_witness :
  reachable Scenario.built.1 Scenario.built.2 ∧
  cn_buffer (unit_at (_convolver Scenario.built.1) Scenario.built.2)
  = ToneAudioBuffer.get (_buffer Scenario.built.1).
Proof.
  assert (Hr : reachable Scenario.built.1 Scenario.built.2)
    by (apply reach_new; apply Forall_nil_2).
  split; [exact Hr|]. exact (proj1 (live_unit_in_sync _ _ Hr)).
Defined.

(** X2: in every state of a live Convolver the unit in place is wired exactly
    once between the two internal gain stages: exactly one edge leaves
    effectSend and it enters the unit, exactly one edge leaves the unit and it
    enters effectReturn, and no other edge enters the unit; the five nodes of
    the effect are distinct and every edge of the graph joins allocated
    nodes. *)
Theorem live_unit_wired_once c w :
  reachable c w →
  routed c w ∧ NoDup (nodes c) ∧ World_ok w.
Proof.
  intros Hr. split; [by apply reachable_routed|].
  destruct (ConvolverProps.reachable_wf c w Hr) as (Hnd & _ & He).
  split; [exact Hnd|].
  unfold World_ok. eapply Forall_impl; [exact He|].
  intros e (H1 & H2 & _). by split.
Qed.

Lemma live_unit_wired_once_witness :
  reachable Scenario.built.1 Scenario.built.2 ∧
  routed Scenario.built.1 Scenario.built.2.
Proof.
  assert (Hr : reachable Scenario.built.1 Scenario.built.2)
    by (apply reach_new; apply Forall_nil_2).
  split; [exact Hr|]. exact (proj1 (live_unit_wired_once _ _ Hr)).
Defined.

End ConvolverInvariants.

(** ** Convolver: the constructor, normalize, load *)

Module ConvolverMore.
Import Convolver.

Implicit Types (c : t) (w : World).

(** X3: the constructor honours its options.  [normalize] reads the value
    given, or true when none was given.  Built on inline sample data, the
    Convolver holds those data at once: the getter returns a buffer of their
    length and the unit holds them.  Built on a URL or on nothing, the getter
    returns null and the unit has no buffer.  In every case the constructor
    allocates five nodes: the unit it creates is the unit in place, it is
    never swapped during construction. *)
Theorem new_honours_options args w :
  let c := (new args w).1 in
  let w' := (new args w).2 in
  get_normalize c w' = default true (arg_normalize args) ∧
  match arg_url args with
  | Some (Raw a) =>
      cn_buffer (unit_at (_convolver c) w') = Some a ∧
      get_buffer c = Some (_buffer c) ∧
      ToneAudioBuffer.length (_buffer c) = AudioBuffer_length a
  | Some (Wrapped b) =>
      cn_buffer (unit_at (_convolver c) w') = ToneAudioBuffer.get b ∧
      ToneAudioBuffer.length (_buffer c) = ToneAudioBuffer.length b
  | Some (Url _) | None =>
      cn_buffer (unit_at (_convolver c) w') = None ∧ get_buffer c = None
  end ∧
  next_id w' = 5 + next_id w ∧ _convolver c = 4 + next_id w.
Proof.
  intros c w'. subst c w'.
  destruct (ConvolverProps.new_shape args w) as (Hc & Hn & _ & Hu & _).
  split; [|split; [|split]].
  - unfold get_normalize. by rewrite Hu.
  - rewrite Hu. rewrite Hc. simpl.
    destruct (arg_url args) as [[s|a|b]|]; simpl; try done.
  - exact Hn.
  - by rewrite Hc.
Qed.

(** X4: [normalize] round trip: the value written is the value read; the
    write touches nothing but that flag of the unit in place (its buffer, the
    other units, the edges and the allocation counter stay), and of two writes
    the last one wins. *)
Theorem set_normalize_round_trip norm norm' c w :
  let w' := set_normalize norm c w in
  get_normalize c w' = norm ∧
  cn_buffer (unit_at (_convolver c) w') = cn_buffer (unit_at (_convolver c) w) ∧
  (∀ n, n ≠ _convolver c → convolvers w' !! n = convolvers w !! n) ∧
  edges w' = edges w ∧ next_id w' = next_id w ∧
  set_normalize norm' c w' = set_normalize norm' c w.
Proof.
  intros w'. subst w'. unfold get_normalize, set_normalize.
  rewrite !unit_at_write_unit. simpl.
  repeat split.
  - intros n Hn. by rewrite lookup_insert_ne.
  - unfold write_unit. simpl. by rewrite insert_insert_eq.
Qed.

(** X5: what an assignment to [buffer] does to [normalize], in every state and
    for every value assigned (null included): when the unit in place holds no
    buffer the flag reads as before; when it holds one, the unit is replaced
    and the flag reads true, whatever it was. *)
Theorem normalize_across_set_buffer buffer c w :
  get_normalize (set_buffer buffer c w).1 (set_buffer buffer c w).2 =
  match cn_buffer (unit_at (_convolver c) w) with
  | Some _ => true
  | None => get_normalize c w
  end.
Proof.
  destruct (cn_buffer (unit_at (_convolver c) w)) as [a|] eqn:H.
  - by rewrite (ConvolverProps.get_normalize_set_buffer_swap _ _ _ a H).
  - by apply ConvolverProps.get_normalize_set_buffer_direct.
Qed.

(** The setter leaves the disposed set and the callback log alone, and
    allocates one node exactly when it replaces the unit. *)
Lemma set_buffer_rest buffer c w :
  disposed (set_buffer buffer c w).2 = disposed w ∧
  invoked (set_buffer buffer c w).2 = invoked w ∧
  next_id (set_buffer buffer c w).2 =
    match cn_buffer (unit_at (_convolver c) w) with
    | Some _ => S (next_id w)
    | None => next_id w
    end.
Proof.
  destruct (cn_buffer (unit_at (_convolver c) w)) as [a|] eqn:H.
  - by rewrite (ConvolverProps.set_buffer_swap _ _ _ a H).
  - by rewrite (ConvolverProps.set_buffer_direct _ _ _ H).
Qed.

Lemma unit_at_invoke f n w : unit_at n (invoke f w) = unit_at n w.
Proof. by destruct f. Qed.

Lemma length_of_data b a :
  ToneAudioBuffer.get b = Some a →
  ToneAudioBuffer.length b = AudioBuffer_length a ∧
  truthy (ToneAudioBuffer.length b) = true.
Proof.
  unfold ToneAudioBuffer.get, ToneAudioBuffer.length. intros ->. done.
Qed.

(** X6: a load that resolves with data is read back: the getter returns the
    Resource Buffer, now of the length of the data, and the unit in place
    holds the data; the ports of the effect are the same objects. *)
Theorem load_resolved_round_trip (loader : Loader) url a c w :
  loader url = Decoded a →
  ∃ c' w',
    load loader url c w = Resolved (c', w') ∧
    ToneAudioBuffer.get (_buffer c') = Some a ∧
    get_buffer c' = Some (_buffer c') ∧
    ToneAudioBuffer.length (_buffer c') = AudioBuffer_length a ∧
    cn_buffer (unit_at (_convolver c') w') = Some a ∧
    input c' = input c ∧ output c' = output c.
Proof.
  intros Hl.
  set (b := ToneAudioBuffer.mk (Some a) (ToneAudioBuffer.onload (_buffer c))).
  set (s := set_buffer (Some b) (with_buffer b c) w).
  exists s.1, s.2.
  assert (Hb : ToneAudioBuffer.get (_buffer s.1) = Some a).
  { subst s. by rewrite ConvolverProps.set_buffer_buffer. }
  destruct (length_of_data _ _ Hb) as (Hlen & Ht).
  destruct (ConvolverProps.set_buffer_ports (Some b) (with_buffer b c) w)
    as (Hi & Ho & _).
  repeat split; try done.
  - unfold load, ToneAudioBuffer.load. rewrite Hl. fold b. fold s. by destruct s.
  - unfold get_buffer. by rewrite Ht.
  - subst s. by rewrite ConvolverProps.set_buffer_unit.
Qed.

Lemma load_resolved_round_trip_witness :
  Scenario.loader "ir2.wav"%string = Decoded Scenario.impulse2 ∧
  ∃ c' w',
    load Scenario.loader "ir2.wav"%string Scenario.built.1 Scenario.built.2
      = Resolved (c', w') ∧
    ToneAudioBuffer.length (_buffer c') = 3.
Proof.
  split; [reflexivity|].
  destruct (load_resolved_round_trip Scenario.loader "ir2.wav"%string
              Scenario.impulse2 Scenario.built.1 Scenario.built.2 eq_refl)
    as (c' & w' & H1 & _ & _ & H2 & _).
  exists c', w'. split; [exact H1 | exact H2].
Defined.

(** X7: when the load started by the constructor completes with data, the
    constructor's callback assigns them (the getter returns the Resource
    Buffer of their length, the unit in place holds them) and calls the
    [onload] of the options exactly once: a function of the user is logged
    once, [noOp] leaves no trace. *)
Theorem constructor_onload_assigns_and_calls a c w :
  let s := constructor_onload a c w in
  cn_buffer (unit_at (_convolver s.1) s.2) = Some a ∧
  get_buffer s.1 = Some (_buffer s.1) ∧
  ToneAudioBuffer.length (_buffer s.1) = AudioBuffer_length a ∧
  invoked s.2 = match ToneAudioBuffer.onload (_buffer c) with
                | noOp => invoked w
                | UserFn k => k :: invoked w
                end.
Proof.
  intros s. subst s. unfold constructor_onload.
  set (b := ToneAudioBuffer.mk (Some a) (ToneAudioBuffer.onload (_buffer c))).
  pose proof (ConvolverProps.set_buffer_buffer (Some b) (with_buffer b c) w) as Hb.
  pose proof (ConvolverProps.set_buffer_unit (Some b) (with_buffer b c) w) as Hu.
  destruct (set_buffer_rest (Some b) (with_buffer b c) w) as (_ & Hi & _).
  destruct (set_buffer (Some b) (with_buffer b c) w) as [c1 w1].
  cbn [fst snd] in *. simpl in Hb.
  assert (Hg : ToneAudioBuffer.get (_buffer c1) = Some a) by by rewrite Hb.
  destruct (length_of_data _ _ Hg) as (Hlen & Ht).
  assert (Ho : ToneAudioBuffer.onload (_buffer c1)
               = ToneAudioBuffer.onload (_buffer c)) by by rewrite Hb.
  rewrite Ho.
  repeat split.
  - rewrite unit_at_invoke. by rewrite Hu.
  - unfold get_buffer. by rewrite Ht.
  - exact Hlen.
  - rewrite <- Hi. by destruct (ToneAudioBuffer.onload (_buffer c)).
Qed.

(** X8: assigning to [buffer] what the getter returns ([c.buffer = c.buffer])
    leaves the Resource Buffer and the answer of the getter as they are, and
    the unit in place afterwards holds the data of the Resource Buffer. *)
Theorem buffer_self_assignment c w :
  let s := set_buffer (get_buffer c) c w in
  _buffer s.1 = _buffer c ∧
  get_buffer s.1 = get_buffer c ∧
  cn_buffer (unit_at (_convolver s.1) s.2) = ToneAudioBuffer.get (_buffer c).
Proof.
  intros s. subst s.
  assert (Hb : _buffer (set_buffer (get_buffer c) c w).1 = _buffer c).
  { rewrite ConvolverProps.set_buffer_buffer. unfold get_buffer.
    destruct (truthy _); [|done]. simpl.
    destruct c as [i o sd r u b]. simpl. by destruct b. }
  split; [exact Hb|]. split.
  - unfold get_buffer at 1 3. by rewrite Hb.
  - by rewrite ConvolverProps.set_buffer_unit, Hb.
Qed.

End ConvolverMore.

(** ** Disposal: what is torn down and what is left *)

Module DisposeMore.

Lemma filter_all {A} (P : A → Prop) `{∀ x, Decision (P x)} (l : list A) :
  Forall P l → filter P l = l.
Proof.
  induction 1 as [|x l Hx _ IH]; [done|].
  rewrite filter_cons_True by done. by f_equal.
Qed.

(** Edges of a well-formed world do not start at nodes allocated later. *)
Lemma World_ok_src_fresh (w : World) (ns : list NodeId) :
  World_ok w → Forall (λ n, next_id w ≤ n) ns →
  Forall (λ e, e_src e ∉ ns) (edges w).
Proof.
  intros Hw Hns. eapply Forall_impl; [exact Hw|]. intros e (H1 & _) Hin.
  pose proof (proj1 (Forall_forall _ _) Hns _ Hin). simpl in *. lia.
Qed.

Lemma Convolver_dispose_edges (c : Convolver.t) (w : World) :
  edges (Convolver.dispose c w).2
  = filter (λ e, e_src e ∉ [Convolver._convolver c;
                            gain_node (Convolver.effectReturn c);
                            gain_node (Convolver.effectSend c);
                            gain_node (Convolver.output c);
                            gain_node (Convolver.input c)]) (edges w).
Proof.
  unfold Convolver.dispose, Convolver.Effect_dispose. cbn [snd].
  rewrite <- (prune_nil w) at 1.
  rewrite !dispose_node_prune, !disconnect_prune. reflexivity.
Qed.

(** X9: [dispose] of a Convolver removes from the graph exactly the edges that
    start at one of the five nodes of the effect and keeps every other edge;
    it empties the Resource Buffer, so the getter answers null; it does not
    touch the convolution units: the unit that was in place still holds its
    buffer and its flag. *)
Theorem Convolver_dispose_effect (c : Convolver.t) (w : World) :
  let s := Convolver.dispose c w in
  (∀ e, e ∈ edges s.2 ↔ e ∈ edges w ∧ e_src e ∉ Convolver.nodes c) ∧
  Convolver.get_buffer s.1 = None ∧
  Convolver._convolver s.1 = Convolver._convolver c ∧
  convolvers s.2 = convolvers w ∧
  next_id s.2 = next_id w.
Proof.
  intros s. subst s. split; [|done].
  intros e. rewrite Convolver_dispose_edges, list_elem_of_filter.
  unfold Convolver.nodes. rewrite !not_elem_of_cons. tauto.
Qed.

Lemma CrossFade_dispose_edges (c : CrossFade.t) (w : World) :
  edges (CrossFade.dispose c w)
  = filter (λ e, e_src e ∉ [CrossFade._split c; CrossFade._panner c;
                            CrossFade._g2a c; sig_node (CrossFade.fade c);
                            gain_node (CrossFade.output c);
                            gain_node (CrossFade.b c);
                            gain_node (CrossFade.a c);
                            gain_node (CrossFade.output c)]) (edges w).
Proof.
  unfold CrossFade.dispose, ToneAudioNode_dispose.
  rewrite <- (prune_nil w) at 1.
  rewrite !dispose_node_prune, !disconnect_prune. reflexivity.
Qed.

(** X11: a CrossFade constructed in a graph and disposed at once leaves one
    edge more than there was: every edge the constructor made is removed
    except the one from the context's constant source into the panner, which
    [dispose] never disconnects. *)
Theorem CrossFade_new_dispose_edges arg (w : World) :
  World_ok w →
  let c := (CrossFade.new arg w).1 in
  edges (CrossFade.dispose c (CrossFade.new arg w).2)
  = mkEdge (7 + next_id w) 0 (NodeInput (CrossFade._panner c) 0) :: edges w.
Proof.
  intros Hw c. subst c. rewrite CrossFade_dispose_edges.
  destruct (CrossFadeProps.new_wiring arg w) as (He & _). rewrite He. simpl.
  rewrite !filter_cons_False by (simpl; rewrite !not_elem_of_cons; tauto).
  rewrite filter_cons_True
    by (simpl; rewrite !not_elem_of_cons, elem_of_nil; lia).
  f_equal. apply filter_all, World_ok_src_fresh; [done|].
  repeat constructor; lia.
Qed.

Lemma CrossFade_new_dispose_edges_witness :
  World_ok empty_World ∧
  edges (CrossFade.dispose (CrossFade.new None empty_World).1
           (CrossFade.new None empty_World).2)
  = [mkEdge 7 0 (NodeInput 0 0)].
Proof.
  assert (Hw : World_ok empty_World) by apply Forall_nil_2.
  split; [exact Hw|]. exact (CrossFade_new_dispose_edges None empty_World Hw).
Defined.

Lemma AmplitudeEnvelope_dispose_edges (c : AmplitudeEnvelope.t) (w : World) :
  edges (AmplitudeEnvelope.dispose c w)
  = filter (λ e, e_src e ∉ [gain_node (AmplitudeEnvelope._gainNode c);
                            sig_node (AmplitudeEnvelope._sig c);
                            gain_node (AmplitudeEnvelope.output c);
                            gain_node (AmplitudeEnvelope.input c)]) (edges w).
Proof.
  unfold AmplitudeEnvelope.dispose, AmplitudeEnvelope.Envelope_dispose,
    ToneAudioNode_dispose.
  rewrite <- (prune_nil w) at 1.
  rewrite !dispose_node_prune. reflexivity.
Qed.

(** X12: an AmplitudeEnvelope constructed in a graph allocates two nodes and
    has a gain node of initial gain 0; disposed at once, it leaves the edges
    of the graph exactly as they were before the construction. *)
Theorem AmplitudeEnvelope_new_dispose_edges options (w : World) :
  World_ok w →
  let c := (AmplitudeEnvelope.new options w).1 in
  let w' := (AmplitudeEnvelope.new options w).2 in
  next_id w' = 2 + next_id w ∧
  gain_value (AmplitudeEnvelope._gainNode c) = 0%Q ∧
  World_ok w' ∧
  edges (AmplitudeEnvelope.dispose c w') = edges w.
Proof.
  intros Hw c w'. subst c w'. split; [done|]. split; [done|]. split.
  - unfold World_ok. simpl. rewrite Forall_cons. split; [simpl; lia|].
    eapply Forall_impl; [exact Hw|]. simpl. intros e (H1 & H2). lia.
  - rewrite AmplitudeEnvelope_dispose_edges. simpl.
    rewrite filter_cons_False by (simpl; rewrite !not_elem_of_cons; tauto).
    apply filter_all, World_ok_src_fresh; [done|].
    repeat constructor; lia.
Qed.

Lemma AmplitudeEnvelope_new_dispose_edges_witness :
  World_ok empty_World ∧
  edges (AmplitudeEnvelope.dispose EnvelopeScenario.built.1
           EnvelopeScenario.built.2) = [].
Proof.
  assert (Hw : World_ok empty_World) by apply Forall_nil_2.
  split; [exact Hw|].
  exact (proj2 (proj2 (proj2
    (AmplitudeEnvelope_new_dispose_edges EnvelopeScenario.options empty_World Hw)))).
Defined.

(** X13: the setter has no guard for a disposed Convolver.  After [dispose]
    of a Convolver whose unit held a buffer, any assignment to [buffer]
    replaces the unit and wires the new one between effectSend and
    effectReturn again; and as [dispose] has emptied the Resource Buffer but
    not the unit, a null assignment then gives a unit without buffer where
    there was one with a buffer. *)
Theorem set_buffer_after_dispose buffer (c : Convolver.t) (w : World) a :
  cn_buffer (unit_at (Convolver._convolver c) w) = Some a →
  let d := Convolver.dispose c w in
  let s := Convolver.set_buffer buffer d.1 d.2 in
  cn_buffer (unit_at (Convolver._convolver d.1) d.2) = Some a ∧
  Convolver.get_buffer d.1 = None ∧
  Convolver._convolver s.1 = next_id w ∧
  Convolver.send_edge c (Convolver._convolver s.1) ∈ edges s.2 ∧
  Convolver.return_edge c (Convolver._convolver s.1) ∈ edges s.2 ∧
  (buffer = None → cn_buffer (unit_at (Convolver._convolver s.1) s.2) = None).
Proof.
  intros Hu d s.
  assert (Hd : cn_buffer (unit_at (Convolver._convolver d.1) d.2) = Some a)
    by exact Hu.
  split; [exact Hd|]. split; [done|].
  subst s. rewrite (ConvolverProps.set_buffer_swap _ _ _ a Hd).
  rewrite ConvolverProps.swap_unit_eq. cbn [fst snd].
  destruct (ConvolverProps.store_ports buffer d.1) as (_ & _ & Hs & Hr).
  split; [done|]. split; [|split].
  - unfold write_unit; cbn [edges]. unfold Convolver.send_edge.
    rewrite Hs. simpl. rewrite !elem_of_cons. auto.
  - unfold write_unit; cbn [edges]. unfold Convolver.return_edge.
    rewrite Hr. simpl. rewrite !elem_of_cons. auto.
  - intros ->. by rewrite unit_at_write_unit.
Qed.

Lemma set_buffer_after_dispose_witness :
  cn_buffer (unit_at (Convolver._convolver Scenario.built.1) Scenario.built.2)
    = Some Scenario.impulse1 ∧
  cn_buffer
    (unit_at
       (Convolver._convolver
          (Convolver.set_buffer None
             (Convolver.dispose Scenario.built.1 Scenario.built.2).1
             (Convolver.dispose Scenario.built.1 Scenario.built.2).2).1)
       (Convolver.set_buffer None
          (Convolver.dispose Scenario.built.1 Scenario.built.2).1
          (Convolver.dispose Scenario.built.1 Scenario.built.2).2).2)
    = None.
Proof.
  assert (H : cn_buffer (unit_at (Convolver._convolver Scenario.built.1)
                           Scenario.built.2) = Some Scenario.impulse1)
    by reflexivity.
  split; [exact H|].
  exact (proj2 (proj2 (proj2 (proj2 (proj2
    (set_buffer_after_dispose None _ _ _ H))))) eq_refl).
Defined.

End DisposeMore.

(** ** CrossFade: the graph of the constructor and its control range *)

Module CrossFadeMore.
Import CrossFade.

Lemma in_range_normal (v : Q) :
  (0 <= in_range normalRange v)%Q ∧ (in_range normalRange v <= 1)%Q ∧
  ((0 <= v)%Q → (v <= 1)%Q → (in_range normalRange v == v)%Q).
Proof.
  unfold in_range.
  destruct (Qle_bool v 0) eqn:H0; [|destruct (Qle_bool 1 v) eqn:H1].
  - apply Qle_bool_iff in H0. repeat split; try done.
    intros Hv _. by apply Qle_antisym.
  - apply Qle_bool_iff in H1. repeat split; try done.
    intros _ Hv. by apply Qle_antisym.
  - assert (¬ (v <= 0)%Q) as Hn0
      by (intros H; apply Qle_bool_iff in H; congruence).
    assert (¬ (1 <= v)%Q) as Hn1
      by (intros H; apply Qle_bool_iff in H; congruence).
    apply Qnot_le_lt in Hn0, Hn1.
    split; [by apply Qlt_le_weak|]. split; [by apply Qlt_le_weak|]. done.
Qed.

(** X14: the constructor of a CrossFade starts the fade signal, in normal
    range, at the value given brought into [0,1] (so at the value itself when
    it is in [0,1], and at 1/2 when none is given); it allocates eight nodes
    in a graph that stays well-formed, and wires them so that the output is
    fed by [a] and [b] and by nothing else, the gain of [a] by output 0 of the
    splitter only, the gain of [b] by output 1 only, and the pan of the panner
    by the GainToAudio stage only. *)
Theorem new_graph arg (w : World) :
  World_ok w →
  let c := (new arg w).1 in
  let w' := (new arg w).2 in
  sig_value (fade c) = in_range normalRange (default (1 # 2)%Q arg) ∧
  (0 <= sig_value (fade c))%Q ∧ (sig_value (fade c) <= 1)%Q ∧
  ((0 <= default (1 # 2) arg)%Q → (default (1 # 2) arg <= 1)%Q →
   (sig_value (fade c) == default (1 # 2) arg)%Q) ∧
  sig_units (fade c) = normalRange ∧
  next_id w' = 8 + next_id w ∧
  World_ok w' ∧
  filter (λ e, port_node (e_dst e) = gain_node (output c)) (edges w')
    = [mkEdge (gain_node (b c)) 0 (NodeInput (gain_node (output c)) 0);
       mkEdge (gain_node (a c)) 0 (NodeInput (gain_node (output c)) 0)] ∧
  filter (λ e, e_dst e = GainParam (gain_node (a c))) (edges w')
    = [mkEdge (_split c) 0 (GainParam (gain_node (a c)))] ∧
  filter (λ e, e_dst e = GainParam (gain_node (b c))) (edges w')
    = [mkEdge (_split c) 1 (GainParam (gain_node (b c)))] ∧
  filter (λ e, e_dst e = PanParam (_panner c)) (edges w')
    = [mkEdge (_g2a c) 0 (PanParam (_panner c))].
Proof.
  intros Hw c w'. subst c w'.
  destruct (CrossFadeProps.new_wiring arg w) as (He & _).
  assert (Hold : ∀ (P : Edge → Prop) `{∀ e, Decision (P e)},
            (∀ e, P e → next_id w ≤ port_node (e_dst e)) →
            filter P (edges w) = []).
  { intros P HP Himp. apply ConvolverInvariants.filter_none.
    apply Forall_forall. intros e Hin HPe.
    destruct (proj1 (Forall_forall _ _) Hw e Hin) as (_ & H2).
    pose proof (Himp e HPe). lia. }
  assert (Hv : sig_value (fade (new arg w).1)
               = in_range normalRange (default (1 # 2)%Q arg)) by reflexivity.
  destruct (in_range_normal (default (1 # 2)%Q arg)) as (Hr0 & Hr1 & Hr2).
  split; [exact Hv|]. rewrite Hv.
  split; [exact Hr0|]. split; [exact Hr1|]. split; [exact Hr2|].
  split; [done|]. split; [done|]. split.
  { unfold World_ok. rewrite He. simpl. rewrite !Forall_cons.
    repeat split; try (simpl; lia).
    eapply Forall_impl; [exact Hw|]. simpl. intros e (H1 & H2). lia. }
  rewrite He. simpl. repeat split.
  - rewrite !filter_cons_True by done.
    rewrite !filter_cons_False by (simpl; lia).
    rewrite Hold; [done|]. intros e ->. lia.
  - rewrite !filter_cons_False by (simpl; intros Heq; inversion Heq; lia).
    rewrite filter_cons_True by done.
    rewrite !filter_cons_False by (simpl; intros Heq; inversion Heq; lia).
    rewrite Hold; [done|]. intros e ->. simpl. lia.
  - rewrite !filter_cons_False by (simpl; intros Heq; inversion Heq; lia).
    rewrite filter_cons_True by done.
    rewrite !filter_cons_False by (simpl; intros Heq; inversion Heq; lia).
    rewrite Hold; [done|]. intros e ->. simpl. lia.
  - rewrite !filter_cons_False by (simpl; intros Heq; inversion Heq; lia).
    rewrite filter_cons_True by done.
    rewrite !filter_cons_False by (simpl; intros Heq; inversion Heq; lia).
    rewrite Hold; [done|]. intros e ->. simpl. lia.
Qed.

Lemma new_graph_witness :
  World_ok empty_World ∧
  sig_value (fade (new (Some (1 # 4)%Q) empty_World).1) = (1 # 4)%Q.
Proof.
  assert (Hw : World_ok empty_World) by apply Forall_nil_2.
  split; [exact Hw|].
  exact (proj1 (new_graph (Some (1 # 4)%Q) empty_World Hw)).
Defined.

End CrossFadeMore.
